(** * email_writer_agent: a shallow embedding of the two scripts

    [agentic_sales_email.py] drafts a sales email through hosted agents and
    sends it with one call to a transactional email API.
    [hybrid_search_agent.py] runs a chat loop in which a hosted model may ask
    for a local vector search.

    The hosted services (the chat-completion endpoint, the vector store, the
    email API, the UUID source) are not part of the repository.  They appear
    here as section variables: a state type and a transition function each;
    the constructors of the email library appear as checks that may refuse
    their arguments.
    Everything the scripts themselves do (building requests, branching on a
    response, appending to the history, catching an exception) is written out
    as functions over those. *)

From stdpp Require Import gmap strings list fin_maps sorting pretty.
From Stdlib Require Import ZArith.

Local Open Scope string_scope.

(** ** Python values, exceptions and outcomes *)

Module Py.

(** The values that cross the boundary of the scripts: [None], [str], [int]. *)
Inductive Value : Type :=
| VNone
| VStr (s : string)
| VInt (z : Z).

#[global] Instance Value_eq_dec : EqDecision Value.
Proof. solve_decision. Defined.

(** An instance of [Exception]: its class name and what [str(e)] gives.
    Interpreter-level [BaseException]s (a keyboard interrupt, an exit
    request) are no call failures and are only modelled at [input()] in
    the REPL. *)
Record Exc : Type := mkExc { exc_class : string; exc_str : string }.

Inductive Outcome (A : Type) : Type :=
| Return (a : A)
| Raise (e : Exc).
Arguments Return {A} a.
Arguments Raise {A} e.

Definition bind {A B} (o : Outcome A) (k : A → Outcome B) : Outcome B :=
  match o with
  | Return a => k a
  | Raise e => Raise e
  end.

(** [try: body except Exception as e: handler e] *)
Definition try_except {A} (body : Outcome A) (handler : Exc → Outcome A)
  : Outcome A :=
  match body with
  | Return a => Return a
  | Raise e => handler e
  end.

(** Truthiness of an optional string ([None] and [""] are falsy). *)
Definition truthy_str (o : option string) : bool :=
  match o with
  | Some s => if decide (s = "") then false else true
  | None => false
  end.

(** What the interpreter does with a script: the module body runs once,
    then the [__main__] block; an exception that reaches the top level
    ends the process with a traceback. *)
Inductive ProcessResult (A : Type) : Type :=
| Exited (a : A)
| Traceback (e : Exc).
Arguments Exited {A} a.
Arguments Traceback {A} e.

Definition run_script {M A} (module_body : Outcome M) (main : M → Outcome A)
  : ProcessResult A :=
  match module_body with
  | Raise e => Traceback e
  | Return m =>
      match main m with
      | Raise e => Traceback e
      | Return a => Exited a
      end
  end.

End Py.

Import Py.

#[global] Instance Outcome_bind : MBind Outcome := λ A B k o, Py.bind o k.
#[global] Instance Outcome_ret : MRet Outcome := λ A a, Return a.

(** ** Process configuration *)

Module Config.

(** [os.environ], and the key/value pairs of the [.env] file (empty when
    there is none). *)
Abbreviation Environ := (gmap string string).

(** [load_dotenv(override=...)]: the file's pairs are merged into the
    process environment; an existing variable is kept unless [override]. *)
Definition load_dotenv (override : bool) (dotenv env : Environ) : Environ :=
  if override then dotenv ∪ env else env ∪ dotenv.

(** [os.getenv(k)] *)
Definition getenv (env : Environ) (k : string) : option string := env !! k.

(** [os.environ[k]] *)
Definition environ_index (env : Environ) (k : string) : Outcome string :=
  match env !! k with
  | Some v => Return v
  | None => Raise (mkExc "KeyError" ("'" +:+ k +:+ "'"))
  end.

End Config.

Import Config.

(** ** agentic_sales_email.py *)

Module SalesEmail.

(** The module globals that the rest of the script reads. *)
Record Module_ : Type := mkModule {
  environ : Environ;
  llm_model : string;
  sender_email : string;
  receiver_email : string
}.

(** Lines 10-15: [load_dotenv(override=True)], then the three
    configuration variables. *)
Definition module_init (env dotenv : Environ) : Outcome Module_ :=
  let environ := load_dotenv true dotenv env in
  let llm_model := "gpt-4o-mini" in
  sender_email ← environ_index environ "SENDER_EMAIL";
  receiver_email ← environ_index environ "RECEIVER_EMAIL";
  Return (mkModule environ llm_model sender_email receiver_email).

(** The payloads that the helpers of the email library build. *)
Record Email : Type := mkEmail { email_address : string }.
Record Content : Type := mkContent { mime_type : string; content_value : string }.
Record Mail : Type := mkMail {
  mail_from : Email;
  mail_to : Email;
  mail_subject : string;
  mail_content : Content
}.
Record SendGridAPIClient : Type := mkClient { api_key : option string }.

(** One [sg.client.mail.send.post(request_body=mail)]. *)
Record PostRequest : Type := mkPost {
  post_client : SendGridAPIClient;
  request_body : Mail
}.

(** The constructors of the email library called in lines 103-107.  Each
    either refuses its arguments with an exception or builds the payload
    above; what it refuses is the library's business, so every
    constructor comes with a check that names the exception, if any. *)
Record Library : Type := mkLibrary {
  check_client : option string → option Exc;
  check_email : string → option Exc;
  check_to : string → option Exc;
  check_content : string → string → option Exc;
  check_mail : Mail → option Exc
}.

(** A constructor call: the exception of the check, or the payload. *)
Definition construct {A} (refused : option Exc) (a : A) : Outcome A :=
  match refused with
  | Some e => Raise e
  | None => Return a
  end.

Section Sender.

(** The email library's constructors. *)
Variable lib : Library.

(** The email service: its state, and what a post does to it. *)
Variable SG : Type.
Variable sg_post : SG → PostRequest → Outcome unit * SG.

(** The service together with the requests submitted to it so far. *)
Record Mailer : Type := mkMailer { sg_state : SG; sg_sent : list PostRequest }.

Definition post (req : PostRequest) (w : Mailer) : Outcome unit * Mailer :=
  let '(r, s) := sg_post (sg_state w) req in
  (r, mkMailer s (sg_sent w ++ [req])).

(** Lines 103-107: the client and the request body, built by the library. *)
Definition build_request (m : Module_) (subject html_body : string)
  : Outcome PostRequest :=
  let key := getenv (environ m) "SENDGRID_API_KEY" in
  sg ← construct (check_client lib key) (mkClient key);
  from_email ← construct (check_email lib (sender_email m)) (mkEmail (sender_email m));
  to_email ← construct (check_to lib (receiver_email m)) (mkEmail (receiver_email m));
  content ← construct (check_content lib "text/html" html_body)
              (mkContent "text/html" html_body);
  mail ← construct (check_mail lib (mkMail from_email to_email subject content))
           (mkMail from_email to_email subject content);
  Return (mkPost sg mail).

(** Lines 99-111.  The post is reached only when the request was built;
    whatever is raised before or by the post is caught. *)
Definition send_html_email (m : Module_) (subject html_body : string)
    (w : Mailer) : Outcome (gmap string string) * Mailer :=
  let '(sent, w') :=
    match build_request m subject html_body with
    | Raise e => (Raise e, w)
    | Return req => post req w
    end in
  (try_except
     (_ ← sent; Return {[ "status" := "success" ]})
     (λ e, Return {[ "status" := "error"; "message" := exc_str e ]}),
   w').

End Sender.

Arguments mkMailer {SG} _ _.
Arguments sg_state {SG} _.
Arguments sg_sent {SG} _.
Arguments post {SG} _ _ _.
Arguments send_html_email lib {SG} sg_post _ _ _ _.

(** A library for examples: it refuses a content that starts with the
    prefix of an API key and builds everything else. *)
Definition demo_library : Library :=
  mkLibrary (λ _, None) (λ _, None) (λ _, None)
    (λ _ value,
       if String.prefix "SG." value
       then Some (mkExc "ApiKeyIncludedException" "content holds an API key")
       else None)
    (λ _, None).

(** A concrete service for examples: it rejects every post that comes
    without an API key and accepts the others, counting them. *)
Definition demo_post (n : nat) (req : PostRequest) : Outcome unit * nat :=
  match api_key (post_client req) with
  | None => (Raise (mkExc "UnauthorizedError" "HTTP Error 401: Unauthorized"), n)
  | Some _ => (Return (), S n)
  end.

Definition demo_env : Environ :=
  {[ "SENDER_EMAIL" := "sales@idare.ai"; "RECEIVER_EMAIL" := "cto@example.com" ]}.

Definition demo_module : Module_ :=
  mkModule demo_env "gpt-4o-mini" "sales@idare.ai" "cto@example.com".

(** The same configuration with a key for the email service. *)
Definition demo_env_with_key : Environ :=
  <[ "SENDGRID_API_KEY" := "test-key" ]> demo_env.

Definition demo_module_with_key : Module_ :=
  mkModule demo_env_with_key "gpt-4o-mini" "sales@idare.ai" "cto@example.com".

End SalesEmail.

(** ** hybrid_search_agent.py *)

Module HybridSearch.

(** Lines 34-37: [load_dotenv()], then the key check. *)
Record Module_ : Type := mkModule { OPENAI_API_KEY : option string }.

Definition module_init (env dotenv : Environ) : Outcome Module_ :=
  let environ := load_dotenv false dotenv env in
  let OPENAI_API_KEY := getenv environ "OPENAI_API_KEY" in
  if negb (truthy_str OPENAI_API_KEY)
  then Raise (mkExc "RuntimeError" "Please set OPENAI_API_KEY in your environment.")
  else Return (mkModule OPENAI_API_KEY).

(** A tool call of a response.  The script reads it both by attribute
    ([call.name], [call.id]) and by key ([call["name"]],
    [call.get("arguments", {})]); both read the fields below.
    [tc_arguments = None] is a call without the key ["arguments"]. *)
Record ToolCall : Type := mkCall {
  tc_id : string;
  tc_name : string;
  tc_arguments : option (gmap string Value)
}.

(** [response.choices[i].message] *)
Record ChatCompletionMessage : Type := mkMsg {
  role : string;
  content : option string;
  tool_calls : option (list ToolCall)
}.

(** What [history] holds: dict literals built by the script, and message
    objects of the service appended as they came. *)
Inductive HistoryItem : Type :=
| Dict (d : gmap string Value)
| Obj (m : ChatCompletionMessage).

Definition item_role (x : HistoryItem) : option Value :=
  match x with
  | Dict d => d !! "role"
  | Obj m => Some (VStr (role m))
  end.

(** Lines 79-97: the two tool declarations sent with every request. *)
Record FunctionSpec : Type := mkSpec {
  fs_name : string;
  fs_description : string;
  fs_properties : list (string * string * option Value);
  fs_required : list string
}.

Inductive ToolSpec : Type :=
| FunctionTool (f : FunctionSpec)
| BuiltinTool (type : string).

Definition internal_search_spec : FunctionSpec :=
  mkSpec "internal_search"
    "Searches the internal ChromaDB vector store for relevant documents."
    [("query", "string", None); ("top_k", "integer", Some (VInt 5))]
    ["query"].

Definition web_search_spec : ToolSpec := BuiltinTool "web_search".

(** The keyword arguments of [client.chat.completions.create]; the
    temperature is kept as the decimal literal of the source. *)
Record Request : Type := mkRequest {
  req_model : string;
  req_messages : list HistoryItem;
  req_tools : list ToolSpec;
  req_tool_choice : string;
  req_temperature : string
}.

(** [x[0]] on a list *)
Definition index0 {A} (l : list A) : Outcome A :=
  match l with
  | x :: _ => Return x
  | [] => Raise (mkExc "IndexError" "list index out of range")
  end.

(** Truthiness of [msg.tool_calls]: [None] and [[]] are falsy. *)
Definition truthy_list {A} (o : option (list A)) : bool :=
  match o with
  | Some (_ :: _) => true
  | _ => false
  end.

(** [s.strip()].  A [str] is modelled by its UTF-8 bytes.  The white space
    characters are those of [str.isspace]: the ASCII ones (U+0009 to
    U+000D, U+001C to U+001F, U+0020), U+0085 and U+00A0 (two bytes), and
    U+1680, U+2000 to U+200A, U+2028, U+2029, U+202F, U+205F and U+3000
    (three bytes). *)
Definition is_space (a : Ascii.ascii) : bool :=
  let n := Ascii.nat_of_ascii a in
  (n =? 32)%nat || ((9 <=? n)%nat && (n <=? 13)%nat)
  || ((28 <=? n)%nat && (n <=? 31)%nat).

Definition is_space2 (a b : Ascii.ascii) : bool :=
  let x := Ascii.nat_of_ascii a in
  let y := Ascii.nat_of_ascii b in
  (x =? 194)%nat && ((y =? 133)%nat || (y =? 160)%nat).

Definition is_space3 (a b c : Ascii.ascii) : bool :=
  let x := Ascii.nat_of_ascii a in
  let y := Ascii.nat_of_ascii b in
  let z := Ascii.nat_of_ascii c in
  ((x =? 225)%nat && (y =? 154)%nat && (z =? 128)%nat)
  || ((x =? 226)%nat && (y =? 128)%nat
      && (((128 <=? z)%nat && (z <=? 138)%nat)
          || (z =? 168)%nat || (z =? 169)%nat || (z =? 175)%nat))
  || ((x =? 226)%nat && (y =? 129)%nat && (z =? 159)%nat)
  || ((x =? 227)%nat && (y =? 128)%nat && (z =? 128)%nat).

(** Leading white space removed. *)
Fixpoint lstrip (s : string) : string :=
  match s with
  | String a r =>
      if is_space a then lstrip r
      else
        match r with
        | String b r2 =>
            if is_space2 a b then lstrip r2
            else
              match r2 with
              | String c r3 => if is_space3 a b c then lstrip r3 else s
              | EmptyString => s
              end
        | EmptyString => s
        end
  | EmptyString => EmptyString
  end.

(** The same on a reversed string, where the bytes of a character come
    last byte first. *)
Fixpoint lstrip_reversed (s : string) : string :=
  match s with
  | String a r =>
      if is_space a then lstrip_reversed r
      else
        match r with
        | String b r2 =>
            if is_space2 b a then lstrip_reversed r2
            else
              match r2 with
              | String c r3 => if is_space3 c b a then lstrip_reversed r3 else s
              | EmptyString => s
              end
        | EmptyString => s
        end
  | EmptyString => EmptyString
  end.

Definition strip (s : string) : string :=
  String.rev (lstrip_reversed (String.rev (lstrip s))).

Definition default_model : string := "gpt-4o-mini".

Definition sample_docs : list string :=
  [ "OpenAI released GPT-4o in 2025, offering multimodal capabilities.";
    "IDARE AI's AutoML platform simplifies model training on AWS S3 data." ].

(** Standard input as the REPL sees it: a line, or an interrupt. *)
Inductive Stdin : Type :=
| Line (s : string)
| CtrlC.

(** The list objects of the interpreter; a history is one of them, named
    by its index. *)
Abbreviation Heap := (list (list HistoryItem)).

Section Agent.

(** Distances as the vector store reports them. *)
Variable Score : Type.

(** The result of [collection.query]: one row per query text. *)
Record QueryResult : Type := mkResult {
  ids : list (list string);
  documents : list (list string);
  distances : list (list Score)
}.

(** One search hit, the dict of line 72. *)
Record Hit : Type := mkHit {
  rank : nat;
  id : string;
  text : string;
  score : Score
}.

(** The vector store: its state, [collection.add], [collection.query]
    and [collection.count()]. *)
Variable Coll : Type.
Variable coll_add :
  Coll → list string → list string → list (gmap string Value) →
  Outcome unit * Coll.
Variable coll_query : Coll → list Value → Value → Outcome QueryResult * Coll.
Variable coll_count : Coll → nat.

(** The source of [uuid.uuid4()]. *)
Variable Rng : Type.
Variable uuid4 : Rng → string * Rng.

(** The chat-completion endpoint: [response.choices] for a request. *)
Variable CS : Type.
Variable create : CS → Request → Outcome (list ChatCompletionMessage) * CS.

(** [json.dumps(result, ensure_ascii=False)] *)
Variable json_dumps : list Hit → string.

Record World : Type := mkWorld {
  w_client : CS;
  w_coll : Coll;
  w_rng : Rng;
  w_heap : Heap
}.

Definition set_client (cs : CS) (w : World) : World :=
  mkWorld cs (w_coll w) (w_rng w) (w_heap w).
Definition set_coll (c : Coll) (w : World) : World :=
  mkWorld (w_client w) c (w_rng w) (w_heap w).
Definition set_rng (r : Rng) (w : World) : World :=
  mkWorld (w_client w) (w_coll w) r (w_heap w).
Definition set_heap (hp : Heap) (w : World) : World :=
  mkWorld (w_client w) (w_coll w) (w_rng w) hp.

(** The contents of the list object [h]. *)
Definition history_read (h : nat) (w : World) : list HistoryItem :=
  default [] (w_heap w !! h).

(** [history.append(x)] on the list object [h]. *)
Definition history_append (h : nat) (x : HistoryItem) (w : World) : World :=
  set_heap (alter (λ l, (l ++ [x])%list) h (w_heap w)) w.

(** [[str(uuid.uuid4()) for _ in docs]] *)
Fixpoint uuids_for {A} (docs : list A) (r : Rng) : list string * Rng :=
  match docs with
  | [] => ([], r)
  | _ :: rest =>
      let '(u, r1) := uuid4 r in
      let '(us, r2) := uuids_for rest r1 in
      (u :: us, r2)
  end.

(** The UUID source after [n] draws, and the UUID of draw [n] (from 0). *)
Fixpoint rng_after (n : nat) (r : Rng) : Rng :=
  match n with
  | O => r
  | S k => rng_after k (uuid4 r).2
  end.

Definition nth_uuid (n : nat) (r : Rng) : string := (uuid4 (rng_after n r)).1.

(** Lines 51-58. *)
Definition ingest_documents (docs : list string) (w : World)
  : Outcome unit * World :=
  let '(new_ids, r) := uuids_for docs (w_rng w) in
  let metadatas := (λ _, (∅ : gmap string Value)) <$> docs in
  let '(res, c) := coll_add (w_coll w) docs new_ids metadatas in
  (res, set_coll c (set_rng r w)).

(** The loop of lines 69-72: [enumerate(zip(...), start)] into hits. *)
Fixpoint collect_hits (start : nat) (rows : list (string * (string * Score)))
  : list Hit :=
  match rows with
  | [] => []
  | (doc_id, (doc_text, s)) :: rest =>
      mkHit start doc_id doc_text s :: collect_hits (S start) rest
  end.

(** Lines 65-73. *)
Definition internal_search_tool (query top_k : Value) (c : Coll)
  : Outcome (list Hit) * Coll :=
  let '(r, c') := coll_query c [query] top_k in
  (res ← r;
   ids0 ← index0 (ids res);
   documents0 ← index0 (documents res);
   distances0 ← index0 (distances res);
   Return (collect_hits 1 (zip ids0 (zip documents0 distances0))),
   c').

(** The call of [internal_search_tool] with the unpacked keyword
    arguments: their binding to [query] and [top_k=5]. *)
Definition apply_internal_search_tool (kwargs : gmap string Value) (c : Coll)
  : Outcome (list Hit) * Coll :=
  if decide (dom kwargs ⊆ ({[ "query"; "top_k" ]} : gset string)) then
    match kwargs !! "query" with
    | Some query =>
        internal_search_tool query (default (VInt 5) (kwargs !! "top_k")) c
    | None =>
        (Raise (mkExc "TypeError"
           "internal_search_tool() missing 1 required positional argument: 'query'"),
         c)
    end
  else
    (Raise (mkExc "TypeError"
       "internal_search_tool() got an unexpected keyword argument"), c).

(** Lines 100-105. *)
Definition dispatch_tool_call (call : ToolCall) (c : Coll)
  : Outcome (list Hit) * Coll :=
  if decide (tc_name call = "internal_search") then
    apply_internal_search_tool (default ∅ (tc_arguments call)) c
  else (Return [], c).

Definition tool_message (call : ToolCall) (result : list Hit) : HistoryItem :=
  Dict {[ "role" := VStr "tool";
          "tool_call_id" := VStr (tc_id call);
          "name" := VStr (tc_name call);
          "content" := VStr (json_dumps result) ]}.

Definition user_message (query : string) : HistoryItem :=
  Dict {[ "role" := VStr "user"; "content" := VStr query ]}.

Definition assistant_message (c : option string) : HistoryItem :=
  Dict {[ "role" := VStr "assistant";
          "content" := from_option VStr VNone c ]}.

(** Lines 134-145: the [for call in msg.tool_calls] loop. *)
Fixpoint run_tool_calls (calls : list ToolCall) (h : nat) (w : World)
  : Outcome unit * World :=
  match calls with
  | [] => (Return (), w)
  | call :: rest =>
      if decide (tc_name call = "internal_search") then
        let '(r, c) := dispatch_tool_call call (w_coll w) in
        let w1 := set_coll c w in
        match r with
        | Raise e => (Raise e, w1)
        | Return result =>
            run_tool_calls rest h (history_append h (tool_message call result) w1)
        end
      else run_tool_calls rest h w
  end.

(** How one pass through the body of [while True] ends. *)
Inductive Next : Type :=
| Continue
| Break (ret : option string).

(** Lines 118-156: one pass through the loop body. *)
Definition chat_iteration (model : string) (h : nat) (w : World)
  : Outcome Next * World :=
  let request :=
    mkRequest model (history_read h w)
      [FunctionTool internal_search_spec; web_search_spec] "auto" "0.3" in
  let '(r, cs) := create (w_client w) request in
  let w1 := set_client cs w in
  match choices ← r; index0 choices with
  | Raise e => (Raise e, w1)
  | Return msg =>
      if truthy_list (tool_calls msg) then
        let w2 := history_append h (Obj msg) w1 in
        let '(done, w3) := run_tool_calls (default [] (tool_calls msg)) h w2 in
        (_ ← done; Return Continue, w3)
      else if decide (role msg = "tool") then
        (Return Continue, history_append h (Obj msg) w1)
      else
        (Return (Break (content msg)),
         history_append h (assistant_message (content msg)) w1)
  end.

(** [while True]: [None] when [fuel] passes do not reach a return or a
    raise. *)
Fixpoint chat_loop (fuel : nat) (model : string) (h : nat) (w : World)
  : option (Outcome (option string) * World) :=
  match fuel with
  | O => None
  | S n =>
      match chat_iteration model h w with
      | (Raise e, w') => Some (Raise e, w')
      | (Return Continue, w') => chat_loop n model h w'
      | (Return (Break ret), w') => Some (Return ret, w')
      end
  end.

(** [history = history or []]: the caller's list when it is non-empty,
    a new list object otherwise. *)
Definition history_or_new (history : option nat) (hp : Heap) : nat * Heap :=
  match history with
  | Some l =>
      match hp !! l with
      | Some (_ :: _) => (l, hp)
      | _ => (length hp, (hp ++ [[]])%list)
      end
  | None => (length hp, (hp ++ [[]])%list)
  end.

(** Lines 112-156. *)
Definition chat (fuel : nat) (query : string) (history : option nat)
    (model : string) (w : World)
  : option (Outcome (option string) * World) :=
  let '(h, hp) := history_or_new history (w_heap w) in
  chat_loop fuel model h (history_append h (user_message query) (set_heap hp w)).

(** Lines 173-181: the REPL over the given standard input, with the
    answers it prints.  Reading past the end of the input raises
    [EOFError]; an interrupt ends the loop normally. *)
Fixpoint repl (fuel : nat) (inputs : list Stdin) (printed : list (option string))
    (w : World) : option (Outcome unit * list (option string) * World) :=
  match inputs with
  | [] => Some (Raise (mkExc "EOFError" "EOF when reading a line"), printed, w)
  | CtrlC :: _ => Some (Return (), printed, w)
  | Line s :: rest =>
      let user_q := strip s in
      if decide (user_q = "") then repl fuel rest printed w
      else
        match chat fuel user_q None default_model w with
        | None => None
        | Some (Raise e, w') => Some (Raise e, printed, w')
        | Some (Return answer, w') => repl fuel rest (printed ++ [answer])%list w'
        end
  end.

(** Lines 162-181. *)
Definition main (fuel : nat) (inputs : list Stdin) (w : World)
  : option (Outcome unit * list (option string) * World) :=
  let '(r, w1) :=
    if decide (coll_count (w_coll w) = 0)
    then ingest_documents sample_docs w
    else (Return (), w) in
  match r with
  | Raise e => Some (Raise e, [], w1)
  | Return _ => repl fuel inputs [] w1
  end.

(** *** Vocabulary of the properties below *)

(** The items [chat] appends after the user message: a tool result, the
    final assistant record, or a message object of the service that
    carried tool calls or had the role ["tool"]. *)
Definition appended_item (x : HistoryItem) : Prop :=
  (∃ call result, x = tool_message call result)
  ∨ (∃ c, x = assistant_message c)
  ∨ (∃ m, x = Obj m ∧ (truthy_list (tool_calls m) = true ∨ role m = "tool")).

(** An item whose role is one of ["user"], ["assistant"], ["tool"]. *)
Definition known_role (x : HistoryItem) : Prop :=
  item_role x = Some (VStr "user")
  ∨ item_role x = Some (VStr "assistant")
  ∨ item_role x = Some (VStr "tool").

(** [w'] differs from [w] in the list object [h] at most, and there by
    appended items only. *)
Definition grows (h : nat) (w w' : World) : Prop :=
  length (w_heap w') = length (w_heap w)
  ∧ (∀ l, l ≠ h → w_heap w' !! l = w_heap w !! l)
  ∧ ∃ appended,
      history_read h w' = (history_read h w ++ appended)%list
      ∧ Forall appended_item appended.

(** Two worlds with the same services whose histories [h1] and [h2]
    hold the same items. *)
Definition same_session (h1 : nat) (w1 : World) (h2 : nat) (w2 : World) : Prop :=
  w_client w1 = w_client w2 ∧ w_coll w1 = w_coll w2 ∧ w_rng w1 = w_rng w2
  ∧ h1 < length (w_heap w1) ∧ h2 < length (w_heap w2)
  ∧ history_read h1 w1 = history_read h2 w2.

(** Two worlds with the same collection whose histories [h1] and [h2]
    hold the same items; the chat endpoints may be in different states. *)
Definition same_history (h1 : nat) (w1 : World) (h2 : nat) (w2 : World) : Prop :=
  w_coll w1 = w_coll w2
  ∧ h1 < length (w_heap w1) ∧ h2 < length (w_heap w2)
  ∧ history_read h1 w1 = history_read h2 w2.

(** What a caller observes of a run besides the list objects. *)
Definition services (w : World) : CS * Coll * Rng :=
  (w_client w, w_coll w, w_rng w).

Definition observable {A} (r : option (A * World)) : option (A * (CS * Coll * Rng)) :=
  (λ p, (p.1, services p.2)) <$> r.

End Agent.

Arguments ids {Score} _.
Arguments documents {Score} _.
Arguments distances {Score} _.
Arguments rank {Score} _.
Arguments id {Score} _.
Arguments text {Score} _.
Arguments score {Score} _.
Arguments w_client {Coll Rng CS} _.
Arguments w_coll {Coll Rng CS} _.
Arguments w_rng {Coll Rng CS} _.
Arguments w_heap {Coll Rng CS} _.
Arguments set_client {Coll Rng CS} _ _.
Arguments set_coll {Coll Rng CS} _ _.
Arguments set_rng {Coll Rng CS} _ _.
Arguments set_heap {Coll Rng CS} _ _.
Arguments history_read {Coll Rng CS} _ _.
Arguments history_append {Coll Rng CS} _ _ _.
Arguments uuids_for {Rng} uuid4 {A} _ _.
Arguments rng_after {Rng} uuid4 _ _.
Arguments nth_uuid {Rng} uuid4 _ _.
Arguments ingest_documents {Coll} coll_add {Rng} uuid4 {CS} _ _.
Arguments collect_hits {Score} _ _.
Arguments internal_search_tool {Score Coll} coll_query _ _ _.
Arguments apply_internal_search_tool {Score Coll} coll_query _ _.
Arguments dispatch_tool_call {Score Coll} coll_query _ _.
Arguments tool_message {Score} json_dumps _ _.
Arguments run_tool_calls {Score Coll} coll_query {Rng CS} json_dumps _ _ _.
Arguments chat_iteration {Score Coll} coll_query {Rng CS} create json_dumps _ _ _.
Arguments chat_loop {Score Coll} coll_query {Rng CS} create json_dumps _ _ _ _.
Arguments chat {Score Coll} coll_query {Rng CS} create json_dumps _ _ _ _ _.
Arguments repl {Score Coll} coll_query {Rng CS} create json_dumps _ _ _ _.
Arguments main {Score Coll} coll_add coll_query coll_count {Rng} uuid4 {CS}
  create json_dumps _ _ _.
Arguments appended_item {Score} json_dumps _.
Arguments grows {Score Coll Rng CS} json_dumps _ _ _.
Arguments same_session {Coll Rng CS} _ _ _ _.
Arguments same_history {Coll Rng CS} _ _ _ _.
Arguments known_role _ : assert.
Arguments services {Coll Rng CS} _.
Arguments observable {Coll Rng CS A} _.

End HybridSearch.

(** ** Concrete services

    A small vector store, UUID source, chat endpoint and serialiser on which
    the scripts can be run; the examples below use them. *)

Module Demo.

Import HybridSearch.

(** A stored document: text, identifier, metadata. *)
Record Doc : Type := mkDoc {
  d_id : string;
  d_text : string;
  d_meta : gmap string Value
}.

Definition Store : Type := list Doc.

(** [collection.get(ids=[i])] *)
Definition get (c : Store) (i : string) : option (string * gmap string Value) :=
  (λ d, (d_text d, d_meta d)) <$> (snd <$> list_find (λ d, d_id d = i) c).

Definition count (c : Store) : nat := length c.

(** A batch is accepted when its three lists have one length and its
    identifiers are new and pairwise distinct. *)
Definition add (c : Store) (docs new_ids : list string)
    (metas : list (gmap string Value)) : Outcome unit * Store :=
  if decide (length new_ids = length docs ∧ length metas = length docs
             ∧ NoDup new_ids ∧ Forall (λ i, get c i = None) new_ids)
  then (Return (),
        (c ++ zip_with (λ i dm, mkDoc i dm.1 dm.2) new_ids (zip docs metas))%list)
  else (Raise (mkExc "ValueError" "invalid batch"), c).

(** The distance of a text to a query: the difference of their lengths. *)
Definition distance (q t : string) : Z :=
  Z.abs (Z.of_nat (String.length q) - Z.of_nat (String.length t)).

Definition closer (q : string) (a b : Doc) : Prop :=
  (distance q (d_text a) ≤ distance q (d_text b))%Z.

#[global] Instance closer_dec q a b : Decision (closer q a b).
Proof. unfold closer. apply _. Defined.

(** The [n_results] nearest documents, nearest first. *)
Definition query (c : Store) (query_texts : list Value) (n_results : Value)
  : Outcome (QueryResult Z) * Store :=
  match query_texts, n_results with
  | [VStr q], VInt k =>
      if decide (1 ≤ k)%Z then
        let rows := take (Z.to_nat k) (merge_sort (closer q) c) in
        (Return (mkResult Z [d_id <$> rows] [d_text <$> rows]
                   [(λ d, distance q (d_text d)) <$> rows]), c)
      else (Raise (mkExc "TypeError" "n_results must be a positive integer"), c)
  | _, _ => (Raise (mkExc "ValueError" "unsupported query"), c)
  end.

(** Identifiers drawn from a counter. *)
Definition uuid4 (n : nat) : string * nat := ("uuid-" +:+ pretty n, S n).

(** A model that first asks for a local and a hosted search, then relays
    a tool message, then answers. *)
Definition create (n : nat) (req : Request)
  : Outcome (list ChatCompletionMessage) * nat :=
  match n with
  | 0 =>
      (Return [mkMsg "assistant" None
         (Some [mkCall "call_1" "internal_search"
                  (Some {[ "query" := VStr "GPT-4o"; "top_k" := VInt 1 ]});
                mkCall "call_2" "web_search" None])], 1)
  | 1 => (Return [mkMsg "tool" (Some "web results") None], 2)
  | S (S _) =>
      (Return [mkMsg "assistant" (Some "GPT-4o was released in 2025.") None], S n)
  end.

(** A model without memory: its response depends on the messages of the
    request only.  It asks for a local search when it sees one message
    and answers otherwise. *)
Definition create_pure (n : nat) (req : Request)
  : Outcome (list ChatCompletionMessage) * nat :=
  match req_messages req with
  | [_] =>
      (Return [mkMsg "assistant" None
         (Some [mkCall "call_1" "internal_search"
                  (Some {[ "query" := VStr "GPT-4o" ]})])], S n)
  | _ => (Return [mkMsg "assistant" (Some "See the documents found.") None], S n)
  end.

Definition json_dumps (hits : list (Hit Z)) : string :=
  "[" +:+ String.concat ", " ((λ h, id h) <$> hits) +:+ "]".

Definition store0 : Store :=
  [ mkDoc "a" "OpenAI released GPT-4o in 2025." ∅;
    mkDoc "b" "AutoML" ∅;
    mkDoc "c" "IDARE AI" ∅ ].

Definition world0 : World Store nat nat := mkWorld Store nat nat 0 store0 0 [].

(** A session whose endpoint has answered [cs] requests and whose
    history is the list object 0. *)
Definition session (cs : nat) (history : list HistoryItem) : World Store nat nat :=
  mkWorld Store nat nat cs store0 0 [history].

End Demo.

(** ** Services that fail or never finish, and blank input *)

Module Faulty.

Import HybridSearch.

(** A vector store that is down: every query raises. *)
Definition query_down (c : Demo.Store) (query_texts : list Value) (n_results : Value)
  : Outcome (QueryResult Z) * Demo.Store :=
  (Raise (mkExc "InternalError" "collection is unavailable"), c).

(** A chat endpoint that is down: every request raises. *)
Definition create_down (n : nat) (req : Request)
  : Outcome (list ChatCompletionMessage) * nat :=
  (Raise (mkExc "APIConnectionError" "Connection error."), n).

(** A model that asks for the hosted web search in every response. *)
Definition create_web (n : nat) (req : Request)
  : Outcome (list ChatCompletionMessage) * nat :=
  (Return [mkMsg "assistant" None (Some [mkCall "call_w" "web_search" None])], S n).

End Faulty.

(** A line the REPL skips: it strips to the empty string. *)
Definition blank_line (x : HybridSearch.Stdin) : bool :=
  match x with
  | HybridSearch.Line s => bool_decide (HybridSearch.strip s = "")
  | HybridSearch.CtrlC => false
  end.

(** * Properties of the sales-email sender *)

Section SenderProperties.

Import SalesEmail.

Variable lib : Library.
Context {SG : Type}.
Variable sg_post : SG → PostRequest → Outcome unit * SG.

(** The only request the library can build for a call. *)
Lemma build_request_returns m subject html_body req :
  build_request lib m subject html_body = Return req →
  req = mkPost (mkClient (getenv (environ m) "SENDGRID_API_KEY"))
          (mkMail (mkEmail (sender_email m)) (mkEmail (receiver_email m)) subject
             (mkContent "text/html" html_body)).
Proof.
  unfold build_request, construct.
  destruct (check_client lib _); [discriminate|]. simpl.
  destruct (check_email lib _); [discriminate|]. simpl.
  destruct (check_to lib _); [discriminate|]. simpl.
  destruct (check_content lib _ _); [discriminate|]. simpl.
  destruct (check_mail lib _); [discriminate|]. simpl.
  by intros [= <-].
Qed.

(** A refused constructor ends the call without a post; a built request is
    posted once and the outcome of the post becomes a dict. *)
Lemma send_html_email_unfold m subject html_body (w : Mailer SG) :
  send_html_email lib sg_post m subject html_body w =
    match build_request lib m subject html_body with
    | Raise e => (Return {[ "status" := "error"; "message" := exc_str e ]}, w)
    | Return req =>
        (match (sg_post (sg_state w) req).1 with
         | Return _ => Return {[ "status" := "success" ]}
         | Raise e => Return {[ "status" := "error"; "message" := exc_str e ]}
         end,
         mkMailer (sg_post (sg_state w) req).2 (sg_sent w ++ [req]))
    end.
Proof.
  unfold send_html_email, post.
  destruct (build_request lib m subject html_body) as [req|e]; [|done].
  destruct (sg_post _ _) as [[u|e] s]; reflexivity.
Qed.

(** C3. When the post to the email service raises [e], the sender returns
    the dict with status ["error"] and message [str(e)]; the exception
    does not leave the function.  The same dict is returned when a
    constructor of the library raises [e] before the post. *)
Theorem send_html_email_reports_failure m subject html_body (w : Mailer SG) e :
  (∀ s,
     build_request lib m subject html_body
     = Return (mkPost (mkClient (getenv (environ m) "SENDGRID_API_KEY"))
                 (mkMail (mkEmail (sender_email m)) (mkEmail (receiver_email m))
                    subject (mkContent "text/html" html_body))) →
     sg_post (sg_state w)
       (mkPost (mkClient (getenv (environ m) "SENDGRID_API_KEY"))
          (mkMail (mkEmail (sender_email m)) (mkEmail (receiver_email m)) subject
             (mkContent "text/html" html_body))) = (Raise e, s) →
     (send_html_email lib sg_post m subject html_body w).1 =
       Return {[ "status" := "error"; "message" := exc_str e ]})
  ∧ (build_request lib m subject html_body = Raise e →
     (send_html_email lib sg_post m subject html_body w).1 =
       Return {[ "status" := "error"; "message" := exc_str e ]}).
Proof.
  split.
  - intros s Hbuild Hpost. rewrite send_html_email_unfold, Hbuild. simpl.
    by rewrite Hpost.
  - intros Hbuild. by rewrite send_html_email_unfold, Hbuild.
Qed.


(** C9. The sender always returns a dict.  Its ["status"] is ["success"]
    or ["error"]; it has a ["message"] exactly when the status is
    ["error"]; the success dict is the singleton. *)
Theorem send_html_email_total m subject html_body (w : Mailer SG) :
  ∃ d : gmap string string,
    (send_html_email lib sg_post m subject html_body w).1 = Return d
    ∧ (d !! "status" = Some "success" ∨ d !! "status" = Some "error")
    ∧ (is_Some (d !! "message") ↔ d !! "status" = Some "error")
    ∧ (d !! "status" = Some "success" → d = {[ "status" := "success" ]}).
Proof.
  assert (∀ e : Exc,
    let d : gmap string string :=
      {[ "status" := "error"; "message" := exc_str e ]} in
    (d !! "status" = Some "success" ∨ d !! "status" = Some "error")
    ∧ (is_Some (d !! "message") ↔ d !! "status" = Some "error")
    ∧ (d !! "status" = Some "success" → d = {[ "status" := "success" ]}))
    as Herror.
  { intros e. simpl.
    rewrite lookup_insert_eq, lookup_insert_ne, lookup_singleton_eq by done.
    split; [by right|]. split; [by split; eauto | discriminate]. }
  rewrite send_html_email_unfold.
  destruct (build_request lib m subject html_body) as [req|e]; simpl;
    [|eexists; split; [reflexivity|apply Herror]].
  destruct (sg_post _ _) as [[u|e] s]; simpl; eexists; (split; [reflexivity|]);
    [|apply Herror].
  rewrite !lookup_singleton_eq, lookup_singleton_ne by done.
  split; [by left|]. split; [|done].
  split; [intros [? ?]; discriminate | discriminate].
Qed.

End SenderProperties.

(** * Missing configuration *)

(** C8. When OPENAI_API_KEY is in neither the process environment nor the
    [.env] file, the module body of the hybrid search script raises
    [RuntimeError]; when SENDER_EMAIL or RECEIVER_EMAIL is in neither, the
    module body of the sales-email script raises [KeyError].  In both cases
    the script ends with that traceback whatever its main block is: the
    main block is not run and the read is made once. *)
Theorem missing_configuration_terminates (env dotenv : Environ) :
  (env !! "OPENAI_API_KEY" = None → dotenv !! "OPENAI_API_KEY" = None →
   let e := mkExc "RuntimeError" "Please set OPENAI_API_KEY in your environment." in
   HybridSearch.module_init env dotenv = Raise e
   ∧ ∀ A (main : HybridSearch.Module_ → Outcome A),
       run_script (HybridSearch.module_init env dotenv) main = Traceback e)
  ∧ ((env !! "SENDER_EMAIL" = None ∧ dotenv !! "SENDER_EMAIL" = None)
     ∨ (env !! "RECEIVER_EMAIL" = None ∧ dotenv !! "RECEIVER_EMAIL" = None) →
     ∃ e, exc_class e = "KeyError"
       ∧ SalesEmail.module_init env dotenv = Raise e
       ∧ ∀ A (main : SalesEmail.Module_ → Outcome A),
           run_script (SalesEmail.module_init env dotenv) main = Traceback e).
Proof.
  split.
  - intros He Hd. simpl.
    assert (HybridSearch.module_init env dotenv
            = Raise (mkExc "RuntimeError" "Please set OPENAI_API_KEY in your environment."))
      as Hinit.
    { unfold HybridSearch.module_init, load_dotenv, getenv.
      replace ((env ∪ dotenv) !! "OPENAI_API_KEY") with (@None string); [done|].
      symmetry. apply lookup_union_None. done. }
    split; [done|]. intros A main. by rewrite Hinit.
  - intros Hmissing.
    assert (∃ e, exc_class e = "KeyError" ∧ SalesEmail.module_init env dotenv = Raise e)
      as (e & Hclass & Hinit).
    { unfold SalesEmail.module_init, environ_index, load_dotenv.
      destruct ((dotenv ∪ env) !! "SENDER_EMAIL") as [sender|] eqn:Hs; simpl.
      - destruct ((dotenv ∪ env) !! "RECEIVER_EMAIL") as [receiver|] eqn:Hr; simpl.
        + exfalso. destruct Hmissing as [[He Hd]|[He Hd]].
          * assert ((dotenv ∪ env) !! "SENDER_EMAIL" = None) as Hn
              by (apply lookup_union_None; done).
            congruence.
          * assert ((dotenv ∪ env) !! "RECEIVER_EMAIL" = None) as Hn
              by (apply lookup_union_None; done).
            congruence.
        + eexists. split; [|reflexivity]. done.
      - eexists. split; [|reflexivity]. done. }
    exists e. split; [done|]. split; [done|].
    intros A main. by rewrite Hinit.
Qed.

(** * Properties of the hybrid search agent *)

Section AgentProperties.

Import HybridSearch.

Context {Score Coll Rng CS : Type}.
Variable coll_query : Coll → list Value → Value → Outcome (QueryResult Score) * Coll.
Variable create : CS → Request → Outcome (list ChatCompletionMessage) * CS.
Variable json_dumps : list (Hit Score) → string.

Local Abbreviation World := (World Coll Rng CS).
Local Abbreviation run_tool_calls := (run_tool_calls coll_query json_dumps).
Local Abbreviation chat_iteration := (chat_iteration coll_query create json_dumps).
Local Abbreviation chat_loop := (chat_loop coll_query create json_dumps).
Local Abbreviation chat := (chat coll_query create json_dumps).
Local Abbreviation repl := (repl coll_query create json_dumps).
Local Abbreviation grows := (grows json_dumps).
Local Abbreviation request model h w :=
  (mkRequest model (history_read h w)
     [FunctionTool internal_search_spec; web_search_spec] "auto" "0.3").

(** ** The list objects *)

Lemma history_read_append h x (w : World) :
  h < length (w_heap w) →
  history_read h (history_append h x w) = (history_read h w ++ [x])%list.
Proof.
  intros Hh. unfold history_read, history_append. simpl.
  rewrite list_lookup_alter_eq.
  destruct (lookup_lt_is_Some_2 _ _ Hh) as [l ->]. done.
Qed.

Lemma heap_append_ne h l x (w : World) :
  l ≠ h → w_heap (history_append h x w) !! l = w_heap w !! l.
Proof. intros Hne. simpl. by apply list_lookup_alter_ne. Qed.

Lemma heap_append_length h x (w : World) :
  length (w_heap (history_append h x w)) = length (w_heap w).
Proof. simpl. apply length_alter. Qed.

Lemma alter_last {A} (f : A → A) (l : list A) x :
  alter f (length l) (l ++ [x])%list = (l ++ [f x])%list.
Proof. induction l as [|y l IH]; simpl; [done|]. f_equal. exact IH. Qed.

(** ** Growth of a history *)

Lemma grows_same_heap h (w w' : World) : w_heap w' = w_heap w → grows h w w'.
Proof.
  intros Heq. unfold grows, history_read. rewrite Heq.
  split; [done|]. split; [done|]. exists []. by rewrite app_nil_r.
Qed.

Lemma grows_trans h (w1 w2 w3 : World) :
  grows h w1 w2 → grows h w2 w3 → grows h w1 w3.
Proof.
  intros (Hl1 & Hf1 & a1 & Hr1 & Ha1) (Hl2 & Hf2 & a2 & Hr2 & Ha2).
  split; [congruence|]. split.
  - intros l Hne. rewrite Hf2, Hf1; done.
  - exists (a1 ++ a2)%list. split.
    + by rewrite Hr2, Hr1, app_assoc.
    + by apply Forall_app.
Qed.

Lemma grows_append h x (w : World) :
  h < length (w_heap w) → appended_item json_dumps x →
  grows h w (history_append h x w).
Proof.
  intros Hh Hx. split; [apply heap_append_length|]. split.
  - intros l Hne. by apply heap_append_ne.
  - exists [x]. split; [by apply history_read_append | by constructor].
Qed.

Lemma grows_length h (w w' : World) :
  grows h w w' → h < length (w_heap w) → h < length (w_heap w').
Proof. intros (Hl & _) Hh. by rewrite Hl. Qed.

Lemma run_tool_calls_grows calls h (w : World) :
  h < length (w_heap w) → grows h w (run_tool_calls calls h w).2.
Proof.
  revert w. induction calls as [|call rest IH]; intros w Hh; simpl.
  - by apply grows_same_heap.
  - case_decide as Hname; [|by apply IH].
    destruct (dispatch_tool_call coll_query call (w_coll w)) as [[result|e] c]; simpl.
    + eapply grows_trans; [|apply IH].
      * eapply grows_trans; [|apply grows_append].
        -- by apply (grows_same_heap h w (set_coll c w)).
        -- done.
        -- left. by exists call, result.
      * by rewrite heap_append_length.
    + by apply grows_same_heap.
Qed.

Lemma chat_iteration_grows model h (w : World) :
  h < length (w_heap w) → grows h w (chat_iteration model h w).2.
Proof.
  intros Hh. unfold HybridSearch.chat_iteration.
  destruct (create (w_client w) _) as [[choices|e] cs]; simpl;
    [|by apply grows_same_heap].
  destruct choices as [|msg rest]; simpl; [by apply grows_same_heap|].
  assert (grows h w (set_client cs w)) as Hcs by by apply grows_same_heap.
  destruct (truthy_list (tool_calls msg)) eqn:Htc.
  - destruct (run_tool_calls _ h (history_append h (Obj msg) (set_client cs w)))
      as [done w3] eqn:Hrun. simpl.
    replace w3 with
      (run_tool_calls (default [] (tool_calls msg)) h
         (history_append h (Obj msg) (set_client cs w))).2 by by rewrite Hrun.
    eapply grows_trans; [|apply run_tool_calls_grows].
    + eapply grows_trans; [exact Hcs|]. apply grows_append; [done|].
      right; right. exists msg. by split; [|left].
    + by rewrite heap_append_length.
  - case_decide as Hrole; simpl.
    + eapply grows_trans; [exact Hcs|]. apply grows_append; [done|].
      right; right. exists msg. by split; [|right].
    + eapply grows_trans; [exact Hcs|]. apply grows_append; [done|].
      right; left. by eexists.
Qed.

Lemma chat_loop_grows fuel model h (w : World) o w' :
  h < length (w_heap w) →
  chat_loop fuel model h w = Some (o, w') → grows h w w'.
Proof.
  revert w. induction fuel as [|n IH]; intros w Hh Hloop; simpl in Hloop;
    [discriminate|].
  pose proof (chat_iteration_grows model h w Hh) as Hstep.
  destruct (chat_iteration model h w) as [[[|ret]|e] w1]; simpl in Hstep.
  - eapply grows_trans; [exact Hstep|]. apply IH; [|done].
    by eapply grows_length.
  - by injection Hloop as <- <-.
  - by injection Hloop as <- <-.
Qed.

(** ** One pass through the loop, given the response *)

Lemma chat_iteration_response model h (w : World) msg rest cs :
  create (w_client w) (request model h w) = (Return (msg :: rest), cs) →
  chat_iteration model h w =
    if truthy_list (tool_calls msg) then
      let r := run_tool_calls (default [] (tool_calls msg)) h
                 (history_append h (Obj msg) (set_client cs w)) in
      (_ ← r.1; Return Continue, r.2)
    else if decide (role msg = "tool") then
      (Return Continue, history_append h (Obj msg) (set_client cs w))
    else
      (Return (Break (content msg)),
       history_append h (assistant_message (content msg)) (set_client cs w)).
Proof.
  intros Hcreate. unfold HybridSearch.chat_iteration. rewrite Hcreate. simpl.
  destruct (truthy_list (tool_calls msg)); [|done].
  by destruct (run_tool_calls _ _ _).
Qed.

(** C1 (amended). Let [msg] be the message of the response obtained in a
    pass of the loop.  If [msg] has no tool calls and its role is not
    ["tool"], [chat] returns [msg.content] in that pass, whatever fuel is
    left.  If [msg] has tool calls, the pass does not return: it goes on
    to the next pass or a local tool raises.  If [msg] has no tool calls
    and the role ["tool"], it is appended and the loop goes on. *)
Theorem chat_return_condition model h (w : World) msg rest cs :
  create (w_client w) (request model h w) = (Return (msg :: rest), cs) →
  (truthy_list (tool_calls msg) = false → role msg ≠ "tool" →
   ∀ n, chat_loop (S n) model h w =
          Some (Return (content msg),
                history_append h (assistant_message (content msg))
                  (set_client cs w)))
  ∧ (truthy_list (tool_calls msg) = true →
     (∀ ret, (chat_iteration model h w).1 ≠ Return (Break ret))
     ∧ (∀ ret w', chat_loop 1 model h w ≠ Some (Return ret, w')))
  ∧ (truthy_list (tool_calls msg) = false → role msg = "tool" →
     chat_iteration model h w =
       (Return Continue, history_append h (Obj msg) (set_client cs w))).
Proof.
  intros Hcreate.
  pose proof (chat_iteration_response model h w msg rest cs Hcreate) as Hit.
  split; [|split].
  - intros Htc Hrole n. simpl. rewrite Hit, Htc.
    by rewrite decide_False.
  - intros Htc. rewrite Htc in Hit. simpl in Hit.
    assert (∀ ret, (chat_iteration model h w).1 ≠ Return (Break ret)) as Hno.
    { intros ret. rewrite Hit. simpl.
      by destruct (run_tool_calls _ _ _) as [[[]|e] w3]. }
    split; [done|]. intros ret w' Hloop. simpl in Hloop.
    destruct (chat_iteration model h w) as [[[|ret']|e] w1] eqn:Hstep;
      try discriminate.
    by apply (Hno ret').
  - intros Htc Hrole. rewrite Hit, Htc. by rewrite decide_True.
Qed.

(** C5. A tool call whose name is not ["internal_search"] takes no local
    action: [dispatch_tool_call] returns the empty list and leaves the
    vector store as it is; the loop over the tool calls of a response
    skips it; and a response whose only tool call it is leaves the pass
    with nothing but the response message appended, the vector store
    unchanged. *)
Theorem hosted_tool_call_takes_no_local_action call :
  tc_name call ≠ "internal_search" →
  (∀ c, dispatch_tool_call coll_query call c = (Return [], c))
  ∧ (∀ rest h (w : World),
       run_tool_calls (call :: rest) h w = run_tool_calls rest h w)
  ∧ (∀ h (w : World), run_tool_calls [call] h w = (Return (), w))
  ∧ (∀ model h (w : World) msg rest cs,
       create (w_client w) (request model h w) = (Return (msg :: rest), cs) →
       tool_calls msg = Some [call] →
       chat_iteration model h w =
         (Return Continue, history_append h (Obj msg) (set_client cs w))
       ∧ w_coll (chat_iteration model h w).2 = w_coll w).
Proof.
  intros Hname.
  assert (∀ rest h (w : World),
            run_tool_calls (call :: rest) h w = run_tool_calls rest h w) as Hskip.
  { intros rest h w. simpl. by rewrite decide_False. }
  split; [|split; [done|split]].
  - intros c. unfold dispatch_tool_call. by rewrite decide_False.
  - intros h w. by rewrite Hskip.
  - intros model h w msg rest cs Hcreate Hcalls.
    rewrite (chat_iteration_response model h w msg rest cs Hcreate).
    rewrite Hcalls. simpl. by rewrite decide_False.
Qed.

(** ** The start of a chat *)

Lemma chat_start query history (w : World) :
  let h := (history_or_new history (w_heap w)).1 in
  let w1 := history_append h (user_message query)
              (set_heap (history_or_new history (w_heap w)).2 w) in
  h < length (w_heap w1)
  ∧ history_read h w1 =
      (from_option (λ l, history_read l w) [] history ++ [user_message query])%list
  ∧ (∀ l, l < length (w_heap w) → l ≠ h → w_heap w1 !! l = w_heap w !! l)
  ∧ services w1 = services w.
Proof.
  assert (∀ u : HistoryItem,
    let w1 := history_append (length (w_heap w)) u
                (set_heap (w_heap w ++ [[]])%list w) in
    length (w_heap w) < length (w_heap w1)
    ∧ history_read (length (w_heap w)) w1 = [u]
    ∧ (∀ l, l < length (w_heap w) → l ≠ length (w_heap w) →
         w_heap w1 !! l = w_heap w !! l)
    ∧ services w1 = services w) as Hfresh.
  { intros u. simpl. unfold history_read. simpl.
    rewrite alter_last. split; [rewrite length_app; simpl; lia|].
    split; [by rewrite list_lookup_middle|].
    split; [|done]. intros l Hl _. by rewrite lookup_app_l. }
  destruct history as [l|]; simpl; [|apply Hfresh].
  destruct (w_heap w !! l) as [[|x xs]|] eqn:Hl; simpl.
  - unfold history_read at 2. rewrite Hl. apply Hfresh.
  - assert (l < length (w_heap w)) as Hlt by by eapply lookup_lt_Some.
    split; [by rewrite length_alter|].
    split; [by apply (history_read_append l _ w)|].
    split; [|done]. intros l' _ Hne. by apply list_lookup_alter_ne.
  - unfold history_read at 2. rewrite Hl. apply Hfresh.
Qed.

Lemma appended_item_role x :
  appended_item json_dumps x →
  match x with
  | Dict _ => item_role x = Some (VStr "tool") ∨ item_role x = Some (VStr "assistant")
  | Obj m => truthy_list (tool_calls m) = true ∨ role m = "tool"
  end.
Proof.
  intros [(call & result & ->)|[(c & ->)|(m & -> & Hm)]].
  - left. reflexivity.
  - right. reflexivity.
  - exact Hm.
Qed.

(** ** The roles in a history *)

Lemma run_tool_calls_roles calls h (w : World) :
  h < length (w_heap w) →
  Forall known_role (history_read h w) →
  Forall known_role (history_read h (run_tool_calls calls h w).2).
Proof.
  revert w. induction calls as [|call rest IH]; intros w Hh Hroles; simpl;
    [done|].
  case_decide as Hname; [|by apply IH].
  destruct (dispatch_tool_call coll_query call (w_coll w)) as [[result|e] c];
    simpl; [|done].
  apply IH; [by rewrite heap_append_length|].
  rewrite history_read_append by done.
  apply Forall_app. split; [done|].
  constructor; [|done]. right; right. reflexivity.
Qed.

Lemma chat_iteration_roles model h (w : World) :
  (∀ cs req msg rest cs',
     create cs req = (Return (msg :: rest), cs') →
     role msg = "assistant" ∨ role msg = "tool") →
  h < length (w_heap w) →
  Forall known_role (history_read h w) →
  Forall known_role (history_read h (chat_iteration model h w).2).
Proof.
  intros Hservice Hh Hroles. unfold HybridSearch.chat_iteration.
  destruct (create (w_client w) _) as [[choices|e] cs] eqn:Hcreate; simpl;
    [|done].
  destruct choices as [|msg rest]; simpl; [done|].
  assert (known_role (Obj msg)) as Hmsg.
  { unfold known_role. simpl.
    destruct (Hservice _ _ _ _ _ Hcreate) as [-> | ->]; auto. }
  assert (∀ x, known_role x →
            Forall known_role
              (history_read h (history_append h x (set_client cs w)))) as Happ.
  { intros x Hx. rewrite history_read_append by done.
    apply Forall_app. split; [done|]. by constructor. }
  destruct (truthy_list (tool_calls msg)).
  - pose proof (run_tool_calls_roles (default [] (tool_calls msg)) h
                  (history_append h (Obj msg) (set_client cs w))) as Hrun.
    destruct (run_tool_calls _ h _) as [done w3]. simpl in *.
    apply Hrun; [by rewrite length_alter | by apply Happ].
  - case_decide; simpl; apply Happ; [done|].
    right; left. reflexivity.
Qed.

Lemma chat_loop_roles fuel model h (w : World) o w' :
  (∀ cs req msg rest cs',
     create cs req = (Return (msg :: rest), cs') →
     role msg = "assistant" ∨ role msg = "tool") →
  h < length (w_heap w) →
  Forall known_role (history_read h w) →
  chat_loop fuel model h w = Some (o, w') →
  Forall known_role (history_read h w').
Proof.
  intros Hservice. revert w.
  induction fuel as [|n IH]; intros w Hh Hroles Hloop; simpl in Hloop;
    [discriminate|].
  pose proof (chat_iteration_roles model h w Hservice Hh Hroles) as Hstep.
  pose proof (grows_length h w _ (chat_iteration_grows model h w Hh) Hh) as Hh1.
  destruct (chat_iteration model h w) as [[[|ret]|e] w1]; simpl in *.
  - by apply (IH w1).
  - by injection Hloop as <- <-.
  - by injection Hloop as <- <-.
Qed.


(** ** Two sessions on the same services *)

Lemma same_session_append h1 (w1 : World) h2 (w2 : World) x :
  same_session h1 w1 h2 w2 →
  same_session h1 (history_append h1 x w1) h2 (history_append h2 x w2).
Proof.
  intros (Hc & Hv & Hr & H1 & H2 & Hh). unfold same_session.
  rewrite !heap_append_length, !history_read_append by done.
  by rewrite Hh.
Qed.

Lemma same_session_coll h1 (w1 : World) h2 (w2 : World) c :
  same_session h1 w1 h2 w2 →
  same_session h1 (set_coll c w1) h2 (set_coll c w2).
Proof. by intros (Hc & Hv & Hr & H1 & H2 & Hh). Qed.

Lemma same_session_client h1 (w1 : World) h2 (w2 : World) cs :
  same_session h1 w1 h2 w2 →
  same_session h1 (set_client cs w1) h2 (set_client cs w2).
Proof. by intros (Hc & Hv & Hr & H1 & H2 & Hh). Qed.

Lemma run_tool_calls_same calls h1 (w1 : World) h2 (w2 : World) :
  same_session h1 w1 h2 w2 →
  (run_tool_calls calls h1 w1).1 = (run_tool_calls calls h2 w2).1
  ∧ same_session h1 (run_tool_calls calls h1 w1).2
      h2 (run_tool_calls calls h2 w2).2.
Proof.
  revert w1 w2. induction calls as [|call rest IH]; intros w1 w2 Hs; simpl;
    [done|].
  case_decide as Hname; [|by apply IH].
  assert (w_coll w1 = w_coll w2) as -> by apply Hs.
  destruct (dispatch_tool_call coll_query call (w_coll w2)) as [[result|e] c];
    simpl.
  - apply IH. by apply same_session_append, same_session_coll.
  - split; [done|]. by apply same_session_coll.
Qed.

Lemma chat_iteration_same model h1 (w1 : World) h2 (w2 : World) :
  same_session h1 w1 h2 w2 →
  (chat_iteration model h1 w1).1 = (chat_iteration model h2 w2).1
  ∧ same_session h1 (chat_iteration model h1 w1).2
      h2 (chat_iteration model h2 w2).2.
Proof.
  intros Hs. unfold HybridSearch.chat_iteration.
  assert (w_client w1 = w_client w2) as -> by apply Hs.
  assert (history_read h1 w1 = history_read h2 w2) as -> by apply Hs.
  destruct (create (w_client w2) _) as [[choices|e] cs]; simpl;
    [|by split; [|apply same_session_client]].
  destruct choices as [|msg rest]; simpl;
    [by split; [|apply same_session_client]|].
  assert (same_session h1 (set_client cs w1) h2 (set_client cs w2)) as Hcs
    by by apply same_session_client.
  destruct (truthy_list (tool_calls msg)).
  - pose proof (run_tool_calls_same (default [] (tool_calls msg)) h1
                  (history_append h1 (Obj msg) (set_client cs w1)) h2
                  (history_append h2 (Obj msg) (set_client cs w2))
                  (same_session_append _ _ _ _ _ Hcs)) as [Ho Hw].
    destruct (run_tool_calls _ h1 _) as [o1 w1'].
    destruct (run_tool_calls _ h2 _) as [o2 w2'].
    simpl in *. by subst.
  - case_decide; simpl; (split; [done|]); by apply same_session_append.
Qed.

Lemma chat_loop_same fuel model h1 (w1 : World) h2 (w2 : World) :
  same_session h1 w1 h2 w2 →
  observable (chat_loop fuel model h1 w1) = observable (chat_loop fuel model h2 w2).
Proof.
  revert w1 w2. induction fuel as [|n IH]; intros w1 w2 Hs; simpl; [done|].
  pose proof (chat_iteration_same model h1 w1 h2 w2 Hs) as [Ho Hw].
  destruct (chat_iteration model h1 w1) as [o1 w1'].
  destruct (chat_iteration model h2 w2) as [o2 w2'].
  simpl in Ho, Hw. subst o2.
  assert (services w1' = services w2') as Hserv.
  { destruct Hw as (Hc & Hv & Hr & _). unfold services. congruence. }
  destruct o1 as [[|ret]|e]; simpl; [by apply IH| |]; by rewrite Hserv.
Qed.

Lemma chat_fresh_same fuel query model (w1 w2 : World) :
  services w1 = services w2 →
  observable (chat fuel query None model w1)
  = observable (chat fuel query None model w2).
Proof.
  intros Hserv. unfold HybridSearch.chat.
  pose proof (chat_start query None w1) as (Hh1 & Hr1 & _ & Hs1).
  pose proof (chat_start query None w2) as (Hh2 & Hr2 & _ & Hs2).
  simpl in *. apply chat_loop_same.
  unfold same_session. rewrite Hr1, Hr2.
  unfold services in *. simpl in *. injection Hserv as -> -> ->. done.
Qed.

Lemma repl_same fuel inputs printed (w1 w2 : World) :
  services w1 = services w2 →
  observable (repl fuel inputs printed w1) = observable (repl fuel inputs printed w2).
Proof.
  revert printed w1 w2.
  induction inputs as [|[s|] rest IH]; intros printed w1 w2 Hserv; simpl.
  - by rewrite Hserv.
  - case_decide; [by apply IH|].
    pose proof (chat_fresh_same fuel (strip s) default_model w1 w2 Hserv) as Hchat.
    destruct (chat fuel (strip s) None default_model w1) as [[o1 w1']|];
      destruct (chat fuel (strip s) None default_model w2) as [[o2 w2']|];
      simpl in Hchat; try discriminate; [|done].
    assert (o1 = o2 ∧ services w1' = services w2') as [-> Hserv']
      by (split; congruence).
    destruct o2 as [answer|e]; simpl; [by apply IH | by rewrite Hserv'].
  - by rewrite Hserv.
Qed.

(** ** Services without memory *)

Section Memoryless.

(** The chat endpoint answers a request the same way in every state, and
    a query leaves the vector store as it found it. *)
Hypothesis endpoint_memoryless :
  ∀ cs1 cs2 req, (create cs1 req).1 = (create cs2 req).1.
Hypothesis query_read_only : ∀ c qs n, (coll_query c qs n).2 = c.

Lemma dispatch_read_only call c : (dispatch_tool_call coll_query call c).2 = c.
Proof.
  unfold dispatch_tool_call, apply_internal_search_tool, internal_search_tool.
  case_decide; [|done]. case_decide; [|done].
  destruct (_ !! "query") as [q|]; [|done].
  pose proof (query_read_only c [q] (default (VInt 5) (default ∅ (tc_arguments call) !! "top_k"))) as Hc.
  by destruct (coll_query c _ _).
Qed.

Lemma same_history_append h1 (w1 : World) h2 (w2 : World) x :
  same_history h1 w1 h2 w2 →
  same_history h1 (history_append h1 x w1) h2 (history_append h2 x w2).
Proof.
  intros (Hc & H1 & H2 & Hh). unfold same_history.
  rewrite !heap_append_length, !history_read_append by done.
  by rewrite Hh.
Qed.

Lemma run_tool_calls_answers calls h1 (w1 : World) h2 (w2 : World) :
  same_history h1 w1 h2 w2 →
  (run_tool_calls calls h1 w1).1 = (run_tool_calls calls h2 w2).1
  ∧ same_history h1 (run_tool_calls calls h1 w1).2 h2 (run_tool_calls calls h2 w2).2
  ∧ w_coll (run_tool_calls calls h1 w1).2 = w_coll w1.
Proof.
  revert w1 w2. induction calls as [|call rest IH]; intros w1 w2 Hs; simpl;
    [done|].
  case_decide as Hname; [|by apply IH].
  assert (w_coll w1 = w_coll w2) as Hc by apply Hs.
  pose proof (dispatch_read_only call (w_coll w2)) as Hro.
  rewrite Hc. destruct (dispatch_tool_call coll_query call (w_coll w2))
    as [[result|e] c]; simpl in Hro; subst c.
  - destruct (IH (history_append h1 (tool_message json_dumps call result)
                    (set_coll (w_coll w2) w1))
                 (history_append h2 (tool_message json_dumps call result)
                    (set_coll (w_coll w2) w2))) as (Ho & Hsame & Hcoll).
    { apply same_history_append. by destruct Hs as (_ & ? & ? & ?). }
    split; [done|]. split; [done|]. by rewrite Hcoll.
  - simpl. split; [done|]. split; [|done]. by destruct Hs as (_ & ? & ? & ?).
Qed.

Lemma chat_iteration_answers model h1 (w1 : World) h2 (w2 : World) :
  same_history h1 w1 h2 w2 →
  (chat_iteration model h1 w1).1 = (chat_iteration model h2 w2).1
  ∧ same_history h1 (chat_iteration model h1 w1).2 h2 (chat_iteration model h2 w2).2
  ∧ w_coll (chat_iteration model h1 w1).2 = w_coll w1.
Proof.
  intros Hs. unfold HybridSearch.chat_iteration.
  assert (history_read h1 w1 = history_read h2 w2) as -> by apply Hs.
  pose proof (endpoint_memoryless (w_client w1) (w_client w2)
                (request model h2 w2)) as Hresp.
  destruct (create (w_client w1) _) as [r1 cs1].
  destruct (create (w_client w2) _) as [r2 cs2]. simpl in Hresp. subst r2.
  assert (same_history h1 (set_client cs1 w1) h2 (set_client cs2 w2)) as Hcs
    by exact Hs.
  destruct r1 as [choices|e]; simpl; [|done].
  destruct choices as [|msg rest]; simpl; [done|].
  destruct (truthy_list (tool_calls msg)).
  - pose proof (run_tool_calls_answers (default [] (tool_calls msg)) h1
                  (history_append h1 (Obj msg) (set_client cs1 w1)) h2
                  (history_append h2 (Obj msg) (set_client cs2 w2))
                  (same_history_append _ _ _ _ _ Hcs)) as (Ho & Hw & Hcoll).
    destruct (run_tool_calls _ h1 _) as [o1 w1'].
    destruct (run_tool_calls _ h2 _) as [o2 w2'].
    simpl in *. by subst.
  - case_decide; simpl; (split; [done|]); (split; [|done]);
      by apply same_history_append.
Qed.

Lemma chat_loop_answers fuel model h1 (w1 : World) h2 (w2 : World) :
  same_history h1 w1 h2 w2 →
  fst <$> chat_loop fuel model h1 w1 = fst <$> chat_loop fuel model h2 w2
  ∧ ∀ o w', chat_loop fuel model h1 w1 = Some (o, w') → w_coll w' = w_coll w1.
Proof.
  revert w1 w2. induction fuel as [|n IH]; intros w1 w2 Hs; simpl; [done|].
  pose proof (chat_iteration_answers model h1 w1 h2 w2 Hs) as (Ho & Hw & Hcoll).
  destruct (chat_iteration model h1 w1) as [o1 w1'].
  destruct (chat_iteration model h2 w2) as [o2 w2'].
  simpl in Ho, Hw, Hcoll. subst o2.
  destruct o1 as [[|ret]|e]; simpl.
  - destruct (IH w1' w2' Hw) as [Hans Hkeep]. split; [done|].
    intros o w' Hloop. rewrite <- Hcoll. by eapply Hkeep.
  - split; [done|]. by intros o w' [= <- <-].
  - split; [done|]. by intros o w' [= <- <-].
Qed.

Lemma chat_fresh_answers fuel query model (w1 w2 : World) :
  w_coll w1 = w_coll w2 →
  fst <$> chat fuel query None model w1 = fst <$> chat fuel query None model w2
  ∧ ∀ o w', chat fuel query None model w1 = Some (o, w') → w_coll w' = w_coll w1.
Proof.
  intros Hc. unfold HybridSearch.chat.
  pose proof (chat_start query None w1) as (Hh1 & Hr1 & _ & Hs1).
  pose proof (chat_start query None w2) as (Hh2 & Hr2 & _ & Hs2).
  simpl in *.
  destruct (chat_loop_answers fuel model (length (w_heap w1))
              (history_append (length (w_heap w1)) (user_message query)
                 (set_heap (w_heap w1 ++ [[]])%list w1))
              (length (w_heap w2))
              (history_append (length (w_heap w2)) (user_message query)
                 (set_heap (w_heap w2 ++ [[]])%list w2))) as [Hans Hkeep].
  { unfold same_history. rewrite Hr1, Hr2. done. }
  split; [exact Hans | exact Hkeep].
Qed.

Lemma repl_answers fuel inputs printed (w1 w2 : World) :
  w_coll w1 = w_coll w2 →
  (λ r, r.1) <$> repl fuel inputs printed w1
  = (λ r, r.1) <$> repl fuel inputs printed w2.
Proof.
  revert printed w1 w2.
  induction inputs as [|[s|] rest IH]; intros printed w1 w2 Hc; simpl; [done| |done].
  case_decide; [by apply IH|].
  destruct (chat_fresh_answers fuel (strip s) default_model w1 w2 Hc)
    as [Hans Hkeep1].
  destruct (chat_fresh_answers fuel (strip s) default_model w2 w1 (eq_sym Hc))
    as [_ Hkeep2].
  destruct (chat fuel (strip s) None default_model w1) as [[o1 w1']|];
    destruct (chat fuel (strip s) None default_model w2) as [[o2 w2']|];
    simpl in Hans; try discriminate; [|done].
  injection Hans as ->.
  destruct o2 as [answer|e]; simpl; [|done].
  apply IH. rewrite (Hkeep1 _ _ eq_refl), (Hkeep2 _ _ eq_refl). done.
Qed.

End Memoryless.

(** C10. [chat] called without a history works on a new list object whose
    only item is the user record of the query.  What such a call returns
    and does to the services does not depend on the list objects that
    exist, so neither does any turn of the REPL, which calls [chat] this
    way for every line that is not blank: the histories left by earlier
    turns have no effect on later answers.  With a chat endpoint that
    answers a request the same way in every state and a vector store that
    a query leaves unchanged, nothing else is carried either: the answer
    to a query after an earlier turn is the answer without that turn, and
    what the REPL prints does not depend on the states the services and
    the list objects were left in. *)
Theorem chat_without_history_starts_fresh fuel query model (w : World) :
  chat fuel query None model w =
    chat_loop fuel model (length (w_heap w))
      (set_heap
         (w_heap w ++ [[Dict {[ "role" := VStr "user"; "content" := VStr query ]}]])%list
         w)
  ∧ history_read (length (w_heap w))
      (set_heap
         (w_heap w ++ [[Dict {[ "role" := VStr "user"; "content" := VStr query ]}]])%list
         w)
    = [Dict {[ "role" := VStr "user"; "content" := VStr query ]}]
  ∧ (∀ hp, observable (chat fuel query None model (set_heap hp w))
           = observable (chat fuel query None model w))
  ∧ (∀ s rest printed,
       strip s ≠ "" →
       repl fuel (Line s :: rest) printed w =
         match chat fuel (strip s) None default_model w with
         | None => None
         | Some (Raise e, w') => Some (Raise e, printed, w')
         | Some (Return answer, w') =>
             repl fuel rest (printed ++ [answer])%list w'
         end)
  ∧ (∀ inputs printed hp,
       observable (repl fuel inputs printed (set_heap hp w))
       = observable (repl fuel inputs printed w))
  ∧ ((∀ cs1 cs2 req, (create cs1 req).1 = (create cs2 req).1) →
     (∀ c qs n, (coll_query c qs n).2 = c) →
     (∀ w2 : World, w_coll w2 = w_coll w →
        fst <$> chat fuel query None model w2 = fst <$> chat fuel query None model w)
     ∧ (∀ earlier o (w1 : World),
          chat fuel earlier None model w = Some (o, w1) →
          fst <$> chat fuel query None model w1
          = fst <$> chat fuel query None model w)
     ∧ (∀ inputs printed (w2 : World), w_coll w2 = w_coll w →
          (λ r, r.1) <$> repl fuel inputs printed w2
          = (λ r, r.1) <$> repl fuel inputs printed w)).
Proof.
  split_and!.
  - unfold HybridSearch.chat, history_append. simpl. by rewrite alter_last.
  - unfold history_read. simpl. by rewrite list_lookup_middle.
  - intros hp. by apply chat_fresh_same.
  - intros s rest printed Hs. simpl. by rewrite decide_False.
  - intros inputs printed hp. by apply repl_same.
  - intros Hpure Hro. split_and!.
    + intros w2 Hc. by apply chat_fresh_answers.
    + intros earlier o w1 Hchat.
      apply chat_fresh_answers; [done..|].
      by apply (chat_fresh_answers Hpure Hro fuel earlier model w w eq_refl) in Hchat.
    + intros inputs printed w2 Hc. by apply repl_answers.
Qed.

End AgentProperties.

(** * Properties of the local search *)

Section SearchProperties.

Import HybridSearch.

Context {Score Coll : Type}.
Variable score_le : relation Score.
Variable coll_query : Coll → list Value → Value → Outcome (QueryResult Score) * Coll.

(** The contract of the vector store's query: asked for [k ≥ 1] results
    for one text it answers; and an answer has one row, of at most [k]
    entries, with as many identifiers and texts as distances, the
    distances ascending. *)
Hypothesis query_returns :
  ∀ c (q : string) (k : Z), (1 ≤ k)%Z →
    ∃ res c', coll_query c [VStr q] (VInt k) = (Return res, c').
Hypothesis query_rows :
  ∀ c (q : string) (k : Z) res c',
    coll_query c [VStr q] (VInt k) = (Return res, c') →
    ∃ i d s,
      ids res = [i] ∧ documents res = [d] ∧ distances res = [s]
      ∧ length i = length s ∧ length d = length s
      ∧ (Z.of_nat (length s) ≤ k)%Z ∧ Sorted score_le s.

Lemma collect_hits_length (start : nat) (rows : list (string * (string * Score))) :
  length (collect_hits start rows) = length rows.
Proof.
  revert start. induction rows as [|[i [d s]] rows IH]; intros start; simpl;
    [done|]. by rewrite IH.
Qed.

Lemma collect_hits_rank (start : nat) (rows : list (string * (string * Score))) n h :
  collect_hits start rows !! n = Some h → rank h = start + n.
Proof.
  revert start n. induction rows as [|[i [d s]] rows IH]; intros start n; simpl;
    [done|].
  destruct n as [|n]; simpl.
  - intros [= <-]. simpl. lia.
  - intros Hn. apply IH in Hn. lia.
Qed.

Lemma collect_hits_fields (start : nat) (rows : list (string * (string * Score))) :
  id <$> collect_hits start rows = rows.*1
  ∧ text <$> collect_hits start rows = (rows.*2).*1
  ∧ score <$> collect_hits start rows = (rows.*2).*2.
Proof.
  revert start. induction rows as [|[i [d s]] rows IH]; intros start; csimpl;
    [done|].
  destruct (IH (S start)) as (-> & -> & ->). done.
Qed.

(** C2. Under the store's query contract, a local search for a query
    string with [top_k ≥ 1] returns; and whenever it returns, it returns
    at most [top_k] hits, the hit at position [i] has rank [i + 1] and
    carries the identifier, text and distance of the store's [i]-th
    result, and the distances of the hits ascend. *)
Theorem internal_search_tool_ranked c (q : string) (k : Z) :
  ((1 ≤ k)%Z →
   ∃ hits c', internal_search_tool coll_query (VStr q) (VInt k) c = (Return hits, c'))
  ∧ (∀ hits c',
       internal_search_tool coll_query (VStr q) (VInt k) c = (Return hits, c') →
       (Z.of_nat (length hits) ≤ k)%Z
       ∧ (∀ i h, hits !! i = Some h → rank h = S i)
       ∧ Sorted score_le (score <$> hits)
       ∧ ∃ res,
           coll_query c [VStr q] (VInt k) = (Return res, c')
           ∧ ids res = [id <$> hits]
           ∧ documents res = [text <$> hits]
           ∧ distances res = [score <$> hits]).
Proof.
  assert (∀ res c',
    coll_query c [VStr q] (VInt k) = (Return res, c') →
    ∃ hits,
      internal_search_tool coll_query (VStr q) (VInt k) c = (Return hits, c')
      ∧ (Z.of_nat (length hits) ≤ k)%Z
      ∧ (∀ i h, hits !! i = Some h → rank h = S i)
      ∧ Sorted score_le (score <$> hits)
      ∧ ids res = [id <$> hits]
      ∧ documents res = [text <$> hits]
      ∧ distances res = [score <$> hits]) as Hmain.
  { intros res c' Hq.
    destruct (query_rows _ _ _ _ _ Hq) as (i & d & s & Hi & Hd & Hs & Hli & Hld & Hk & Hsorted).
    unfold internal_search_tool. rewrite Hq.
    unfold mbind, Outcome_bind, Py.bind. rewrite Hi, Hd, Hs. simpl.
    eexists. split; [reflexivity|].
    destruct (collect_hits_fields 1 (zip i (zip d s))) as (Hfi & Hfd & Hfs).
    assert ((zip i (zip d s)).*1 = i) as Hz1.
    { apply fst_zip. rewrite length_zip_with. lia. }
    assert ((zip i (zip d s)).*2 = zip d s) as Hz2.
    { apply snd_zip. rewrite length_zip_with. lia. }
    assert ((zip d s).*1 = d) as Hz3 by (apply fst_zip; lia).
    assert ((zip d s).*2 = s) as Hz4 by (apply snd_zip; lia).
    rewrite Hfi, Hfd, Hfs, Hz1, Hz2, Hz3, Hz4.
    split_and!; try done.
    - rewrite collect_hits_length, !length_zip_with. lia.
    - intros n h Hn. by apply collect_hits_rank in Hn. }
  split.
  - intros Hk. destruct (query_returns c q k Hk) as (res & c' & Hq).
    destruct (Hmain res c' Hq) as (hits & Htool & _). eauto.
  - intros hits c' Htool.
    destruct (coll_query c [VStr q] (VInt k)) as [[res|e] c''] eqn:Hq.
    + destruct (Hmain res c'' eq_refl) as (hits' & Htool' & Hlen & Hrank & Hsorted & Hi & Hd & Hs).
      rewrite Htool' in Htool. injection Htool as <- <-.
      split_and!; try done. by exists res.
    + unfold internal_search_tool in Htool. rewrite Hq in Htool. discriminate.
Qed.

End SearchProperties.

(** * Properties of the ingestion *)

Section IngestProperties.

Import HybridSearch.

Context {Coll Rng CS : Type}.
Variable coll_add :
  Coll → list string → list string → list (gmap string Value) → Outcome unit * Coll.
Variable coll_count : Coll → nat.
Variable coll_get : Coll → string → option (string * gmap string Value).
Variable uuid4 : Rng → string * Rng.

(** The contract of the vector store's add: a batch of as many
    identifiers and metadata maps as documents, its identifiers new and
    pairwise distinct, is stored; the count grows by the size of the
    batch and each document is found under its identifier. *)
Hypothesis add_stores :
  ∀ c docs new_ids metas,
    length new_ids = length docs → length metas = length docs →
    NoDup new_ids → (∀ i, i ∈ new_ids → coll_get c i = None) →
    ∃ c', coll_add c docs new_ids metas = (Return (), c')
      ∧ coll_count c' = coll_count c + length docs
      ∧ ∀ n i d md,
          new_ids !! n = Some i → docs !! n = Some d → metas !! n = Some md →
          coll_get c' i = Some (d, md).

Lemma uuids_for_length {A} (docs : list A) r :
  length (uuids_for uuid4 docs r).1 = length docs.
Proof.
  revert r. induction docs as [|d docs IH]; intros r; simpl; [done|].
  destruct (uuid4 r) as [u r1]. specialize (IH r1).
  destruct (uuids_for uuid4 docs r1) as [us r2]. simpl in *. by rewrite IH.
Qed.

Lemma uuids_for_draws {A} (docs : list A) r :
  uuids_for uuid4 docs r
  = ((λ n, nth_uuid uuid4 n r) <$> seq 0 (length docs),
     rng_after uuid4 (length docs) r).
Proof.
  revert r. induction docs as [|d docs IH]; intros r; simpl; [done|].
  destruct (uuid4 r) as [u r1] eqn:Hdraw. rewrite IH.
  assert (r1 = (uuid4 r).2) as Hr1 by (by rewrite Hdraw).
  f_equal. f_equal; [unfold nth_uuid; simpl; by rewrite Hdraw|].
  rewrite <- fmap_S_seq, <- list_fmap_compose.
  apply list_fmap_ext. intros i n _. unfold nth_uuid. simpl. by rewrite Hr1.
Qed.

(** C4. The identifiers of a batch are the next [K] draws of the UUID
    source, one per document in order.  Provided these draws do not
    collide (no two of them give the same UUID, and none gives an
    identifier the collection already holds), ingesting [K] documents
    returns, raises the count of the collection by exactly [K], and
    stores the [n]-th document, with empty metadata, under the UUID of
    draw [n]; the identifiers of the batch are pairwise distinct. *)
Theorem ingest_documents_adds_each_document docs (w : World Coll Rng CS) :
  (∀ n m, n < length docs → m < length docs →
     nth_uuid uuid4 n (w_rng w) = nth_uuid uuid4 m (w_rng w) → n = m) →
  (∀ n, n < length docs →
     coll_get (w_coll w) (nth_uuid uuid4 n (w_rng w)) = None) →
  ∃ w',
    ingest_documents coll_add uuid4 docs w = (Return (), w')
    ∧ coll_count (w_coll w') = coll_count (w_coll w) + length docs
    ∧ (uuids_for uuid4 docs (w_rng w)).1
      = (λ n, nth_uuid uuid4 n (w_rng w)) <$> seq 0 (length docs)
    ∧ NoDup (uuids_for uuid4 docs (w_rng w)).1
    ∧ (∀ n d, docs !! n = Some d →
         coll_get (w_coll w') (nth_uuid uuid4 n (w_rng w)) = Some (d, ∅))
    ∧ w_rng w' = rng_after uuid4 (length docs) (w_rng w).
Proof.
  intros Hdistinct Hfresh.
  assert (NoDup ((λ n, nth_uuid uuid4 n (w_rng w)) <$> seq 0 (length docs)))
    as Hnodup.
  { apply NoDup_fmap_2_strong; [|apply NoDup_seq].
    intros n m Hn Hm. apply elem_of_seq in Hn, Hm.
    apply Hdistinct; lia. }
  destruct (add_stores (w_coll w) docs
              ((λ n, nth_uuid uuid4 n (w_rng w)) <$> seq 0 (length docs))
              ((λ _, ∅) <$> docs))
    as (c' & Hadd & Hcount & Hget).
  - by rewrite length_fmap, length_seq.
  - by rewrite length_fmap.
  - done.
  - intros i (n & -> & Hn)%list_elem_of_fmap. apply elem_of_seq in Hn.
    apply Hfresh. lia.
  - unfold ingest_documents. rewrite uuids_for_draws, Hadd.
    eexists. split; [reflexivity|]. simpl.
    split_and!; try done.
    intros n d Hd.
    assert (n < length docs) as Hn by (by eapply lookup_lt_Some).
    eapply Hget; [|done|by rewrite list_lookup_fmap, Hd].
    rewrite list_lookup_fmap, lookup_seq_lt by done. done.
Qed.

End IngestProperties.

(** * The concrete services meet the contracts *)

Lemma Sorted_take {A} (R : relation A) n (l : list A) :
  Sorted R l → Sorted R (take n l).
Proof.
  intros Hs. revert n. induction Hs as [|x l Hs IH Hhd]; intros [|n]; simpl;
    try constructor.
  - apply IH.
  - destruct Hhd; destruct n; simpl; by constructor.
Qed.

Lemma closer_total q : Total (Demo.closer q).
Proof. intros a b. unfold Demo.closer. lia. Qed.

Lemma demo_query_returns (c : Demo.Store) (q : string) (k : Z) :
  (1 ≤ k)%Z → ∃ res c', Demo.query c [VStr q] (VInt k) = (Return res, c').
Proof. intros Hk. unfold Demo.query. rewrite decide_True by done. eauto. Qed.

Lemma demo_query_rows (c : Demo.Store) (q : string) (k : Z) res c' :
  Demo.query c [VStr q] (VInt k) = (Return res, c') →
  ∃ i d s,
    HybridSearch.ids res = [i] ∧ HybridSearch.documents res = [d]
    ∧ HybridSearch.distances res = [s]
    ∧ length i = length s ∧ length d = length s
    ∧ (Z.of_nat (length s) ≤ k)%Z ∧ Sorted Z.le s.
Proof.
  unfold Demo.query. case_decide as Hk; [|discriminate]. intros [= <- <-].
  eexists _, _, _. split_and!; try reflexivity.
  - by rewrite !length_fmap.
  - by rewrite !length_fmap.
  - rewrite length_fmap, length_take. lia.
  - apply (Sorted_fmap _ (Demo.closer q)); [done|].
    apply Sorted_take. apply (@Sorted_merge_sort _ _ _ (closer_total q)).
Qed.

Lemma demo_add_stores (c : Demo.Store) docs new_ids metas :
  length new_ids = length docs → length metas = length docs →
  NoDup new_ids → (∀ i, i ∈ new_ids → Demo.get c i = None) →
  ∃ c', Demo.add c docs new_ids metas = (Return (), c')
    ∧ Demo.count c' = Demo.count c + length docs
    ∧ ∀ n i d md,
        new_ids !! n = Some i → docs !! n = Some d → metas !! n = Some md →
        Demo.get c' i = Some (d, md).
Proof.
  intros Hl1 Hl2 Hnd Hfresh. unfold Demo.add.
  rewrite decide_True by (split_and!; try done; by apply Forall_forall).
  eexists. split; [reflexivity|]. split.
  - unfold Demo.count. rewrite length_app, !length_zip_with. lia.
  - intros n i d md Hi Hd Hmd. unfold Demo.get.
    assert (list_find (λ x, Demo.d_id x = i)
              (c ++ zip_with (λ i dm, Demo.mkDoc i dm.1 dm.2) new_ids (zip docs metas))
            = Some (length c + n, Demo.mkDoc i d md)) as ->; [|done].
    apply list_find_Some. split_and!.
    + rewrite lookup_app_r by lia.
      replace (length c + n - length c) with n by lia.
      apply lookup_zip_with_Some. exists i, (d, md). split_and!; [done..|].
      apply lookup_zip_with_Some. eauto.
    + done.
    + intros j y Hj Hlt Hy. apply lookup_app_Some in Hj as [Hj|[Hge Hj]].
      * specialize (Hfresh i (list_elem_of_lookup_2 _ _ _ Hi)).
        unfold Demo.get in Hfresh.
        apply fmap_None, fmap_None, list_find_None in Hfresh.
        by apply (Forall_lookup_1 _ _ _ _ Hfresh Hj).
      * apply lookup_zip_with_Some in Hj as (i' & dm & -> & Hi' & _).
        simpl in Hy. subst i'.
        assert (j - length c = n) by (by eapply NoDup_lookup). lia.
Qed.

(** * The theorems at concrete inputs *)

Section Examples.

Import HybridSearch SalesEmail.

Lemma chat_return_condition_witness :
  chat_loop Demo.query Demo.create Demo.json_dumps 1 default_model 0
    (Demo.session 2 [user_message "When was GPT-4o released?"])
  = Some (Return (Some "GPT-4o was released in 2025."),
          history_append 0 (assistant_message (Some "GPT-4o was released in 2025."))
            (set_client 3 (Demo.session 2 [user_message "When was GPT-4o released?"]))).
Proof.
  apply (proj1 (chat_return_condition Demo.query Demo.create Demo.json_dumps
                  default_model 0
                  (Demo.session 2 [user_message "When was GPT-4o released?"])
                  (mkMsg "assistant" (Some "GPT-4o was released in 2025.") None)
                  [] 3 eq_refl)).
  - reflexivity.
  - discriminate.
Defined.

(** C1, as stated, fails: the second response of this model has no tool
    calls, yet the loop does not return on it; with one more pass it
    returns the text of a later response. *)
Lemma chat_does_not_return_on_tool_role_message :
  Demo.create 1
    (mkRequest default_model [user_message "q"]
       [FunctionTool internal_search_spec; web_search_spec] "auto" "0.3")
  = (Return [mkMsg "tool" (Some "web results") None], 2)
  ∧ truthy_list (tool_calls (mkMsg "tool" (Some "web results") None)) = false
  ∧ chat_loop Demo.query Demo.create Demo.json_dumps 1 default_model 0
      (Demo.session 1 [user_message "q"]) = None
  ∧ fst <$> chat_loop Demo.query Demo.create Demo.json_dumps 2 default_model 0
              (Demo.session 1 [user_message "q"])
    = Some (Return (Some "GPT-4o was released in 2025.")).
Proof. split_and!; reflexivity. Qed.

Lemma internal_search_tool_ranked_witness :
  ∃ hits c',
    internal_search_tool Demo.query (VStr "IDARE") (VInt 2) Demo.store0
    = (Return hits, c')
    ∧ (Z.of_nat (length hits) ≤ 2)%Z
    ∧ Sorted Z.le (score <$> hits).
Proof.
  destruct (internal_search_tool_ranked Z.le Demo.query demo_query_returns
              demo_query_rows Demo.store0 "IDARE" 2) as [Hret Hhits].
  destruct Hret as (hits & c' & Htool); [lia|].
  exists hits, c'. split; [exact Htool|].
  destruct (Hhits hits c' Htool) as (Hlen & _ & Hsorted & _). by split.
Defined.

Lemma send_html_email_reports_failure_witness :
  (send_html_email demo_library demo_post demo_module "Hello" "<p>Hi</p>"
     (mkMailer 0 [])).1
  = Return {[ "status" := "error"; "message" := "HTTP Error 401: Unauthorized" ]}.
Proof.
  apply (proj1 (send_html_email_reports_failure demo_library demo_post demo_module
                  "Hello" "<p>Hi</p>" (mkMailer 0 [])
                  (mkExc "UnauthorizedError" "HTTP Error 401: Unauthorized")) 0);
    reflexivity.
Defined.

Lemma ingest_documents_adds_each_document_witness :
  ∃ w',
    ingest_documents Demo.add Demo.uuid4 sample_docs Demo.world0 = (Return (), w')
    ∧ Demo.count (w_coll w') = 5
    ∧ NoDup (uuids_for Demo.uuid4 sample_docs 0).1.
Proof.
  destruct (ingest_documents_adds_each_document Demo.add Demo.count Demo.get
              Demo.uuid4 demo_add_stores sample_docs Demo.world0)
    as (w' & Hingest & Hcount & _ & Hnodup & _).
  - intros n m Hn Hm.
    destruct n as [|[|n]]; [| |simpl in Hn; lia];
      (destruct m as [|[|m]]; [| |simpl in Hm; lia]);
      intros Heq; first [reflexivity | vm_compute in Heq; discriminate].
  - intros n Hn. destruct n as [|[|n]]; [reflexivity..|simpl in Hn; lia].
  - exists w'. split; [exact Hingest|]. split; [exact Hcount | exact Hnodup].
Defined.

Lemma hosted_tool_call_takes_no_local_action_witness :
  dispatch_tool_call Demo.query (mkCall "call_2" "web_search" None) Demo.store0
  = (Return [], Demo.store0).
Proof.
  apply (proj1 (hosted_tool_call_takes_no_local_action (Rng := nat) Demo.query
                  Demo.create Demo.json_dumps
                  (mkCall "call_2" "web_search" None) ltac:(discriminate))).
Defined.




Lemma chat_without_history_starts_fresh_witness :
  ∃ o w1,
    chat Demo.query Demo.create_pure Demo.json_dumps 3 "What is AutoML?" None
      default_model Demo.world0 = Some (o, w1)
    ∧ fst <$> chat Demo.query Demo.create_pure Demo.json_dumps 3
                "When was GPT-4o released?" None default_model w1
      = fst <$> chat Demo.query Demo.create_pure Demo.json_dumps 3
                  "When was GPT-4o released?" None default_model Demo.world0.
Proof.
  destruct (chat Demo.query Demo.create_pure Demo.json_dumps 3 "What is AutoML?"
              None default_model Demo.world0) as [[o w1]|] eqn:Hchat;
    [|vm_compute in Hchat; discriminate].
  exists o, w1. split; [reflexivity|].
  destruct (chat_without_history_starts_fresh Demo.query Demo.create_pure
              Demo.json_dumps 3 "When was GPT-4o released?" default_model
              Demo.world0) as (_ & _ & _ & _ & _ & Hmemoryless).
  destruct Hmemoryless as (_ & Hturn & _).
  - intros cs1 cs2 req. unfold Demo.create_pure.
    by destruct (req_messages req) as [|? [|? ?]].
  - intros c qs n. unfold Demo.query. by repeat case_match.
  - exact (Hturn "What is AutoML?" o w1 Hchat).
Defined.

Lemma missing_configuration_terminates_witness :
  run_script (HybridSearch.module_init ∅ ∅) (λ _, Return ())
  = Traceback (mkExc "RuntimeError" "Please set OPENAI_API_KEY in your environment.")
  ∧ ∃ e, exc_class e = "KeyError"
      ∧ run_script (SalesEmail.module_init {[ "SENDER_EMAIL" := "sales@idare.ai" ]} ∅)
          (λ _, Return ()) = Traceback e.
Proof.
  split.
  - destruct (proj1 (missing_configuration_terminates ∅ ∅)) as [_ Hrun];
      [reflexivity..|]. apply Hrun.
  - destruct (proj2 (missing_configuration_terminates
                       {[ "SENDER_EMAIL" := "sales@idare.ai" ]} ∅))
      as (e & Hclass & _ & Hrun); [right; split; reflexivity|].
    exists e. split; [exact Hclass | apply Hrun].
Defined.

End Examples.

(** * Further properties: configuration *)

(** X1. The sales-email script lets the [.env] file override the process
    environment, the hybrid search script lets the process environment
    win: a SENDER_EMAIL or RECEIVER_EMAIL of the file is the address the
    module keeps, and an OPENAI_API_KEY of the process environment is the
    key the module keeps, whatever the other source says. *)
Theorem dotenv_precedence (env dotenv : Environ) :
  (∀ v m, dotenv !! "SENDER_EMAIL" = Some v →
     SalesEmail.module_init env dotenv = Return m → SalesEmail.sender_email m = v)
  ∧ (∀ v m, dotenv !! "RECEIVER_EMAIL" = Some v →
       SalesEmail.module_init env dotenv = Return m →
       SalesEmail.receiver_email m = v)
  ∧ (∀ v m, env !! "OPENAI_API_KEY" = Some v →
       HybridSearch.module_init env dotenv = Return m →
       HybridSearch.OPENAI_API_KEY m = Some v).
Proof.
  split_and!.
  - intros v m Hv. unfold SalesEmail.module_init, environ_index, load_dotenv.
    rewrite (lookup_union_Some_l dotenv env _ v Hv). simpl.
    destruct ((dotenv ∪ env) !! "RECEIVER_EMAIL"); simpl; [|discriminate].
    by intros [= <-].
  - intros v m Hv. unfold SalesEmail.module_init, environ_index, load_dotenv.
    destruct ((dotenv ∪ env) !! "SENDER_EMAIL"); simpl; [|discriminate].
    rewrite (lookup_union_Some_l dotenv env _ v Hv). simpl.
    by intros [= <-].
  - intros v m Hv. unfold HybridSearch.module_init, load_dotenv, getenv.
    rewrite (lookup_union_Some_l env dotenv _ v Hv).
    destruct (negb _); [discriminate|]. by intros [= <-].
Qed.

(** X2. The module body of the sales-email script returns exactly when
    both addresses are defined, each in the [.env] file or the process
    environment.  SENDER_EMAIL is read first: when it is missing the
    [KeyError] names it, also when RECEIVER_EMAIL is missing too. *)
Theorem sales_module_init_returns_iff (env dotenv : Environ) :
  ((∃ m, SalesEmail.module_init env dotenv = Return m) ↔
   (is_Some (dotenv !! "SENDER_EMAIL") ∨ is_Some (env !! "SENDER_EMAIL"))
   ∧ (is_Some (dotenv !! "RECEIVER_EMAIL") ∨ is_Some (env !! "RECEIVER_EMAIL")))
  ∧ (dotenv !! "SENDER_EMAIL" = None → env !! "SENDER_EMAIL" = None →
     SalesEmail.module_init env dotenv = Raise (mkExc "KeyError" "'SENDER_EMAIL'"))
  ∧ (is_Some (dotenv !! "SENDER_EMAIL") ∨ is_Some (env !! "SENDER_EMAIL") →
     dotenv !! "RECEIVER_EMAIL" = None → env !! "RECEIVER_EMAIL" = None →
     SalesEmail.module_init env dotenv = Raise (mkExc "KeyError" "'RECEIVER_EMAIL'")).
Proof.
  assert (∀ k, is_Some ((dotenv ∪ env) !! k)
               ↔ is_Some (dotenv !! k) ∨ is_Some (env !! k)) as Hsome.
  { intros k. apply lookup_union_is_Some. }
  unfold SalesEmail.module_init, environ_index, load_dotenv.
  split_and!.
  - rewrite <- !Hsome.
    destruct ((dotenv ∪ env) !! "SENDER_EMAIL") as [s|]; simpl;
      [destruct ((dotenv ∪ env) !! "RECEIVER_EMAIL") as [r|]; simpl|].
    + split; [by eauto|]. intros _. eauto.
    + split; [intros [m [=]] | intros [_ [? [=]]]].
    + split; [intros [m [=]] | intros [[? [=]] _]].
  - intros Hd He.
    by rewrite (proj2 (lookup_union_None dotenv env "SENDER_EMAIL") (conj Hd He)).
  - intros Hs Hd He. apply Hsome in Hs as [s ->]. simpl.
    by rewrite (proj2 (lookup_union_None dotenv env "RECEIVER_EMAIL") (conj Hd He)).
Qed.

(** X3. The module body of the hybrid search script returns exactly when
    the key it finds is a non-empty string, where the process environment
    is looked up first and the [.env] file only when the variable is not
    set there.  So an empty OPENAI_API_KEY in the process environment
    raises even when the file holds a key. *)
Theorem hybrid_module_init_returns_iff (env dotenv : Environ) :
  ((∃ m, HybridSearch.module_init env dotenv = Return m) ↔
   ∃ v, v ≠ ""
     ∧ (env !! "OPENAI_API_KEY" = Some v
        ∨ (env !! "OPENAI_API_KEY" = None ∧ dotenv !! "OPENAI_API_KEY" = Some v)))
  ∧ (env !! "OPENAI_API_KEY" = Some "" →
     HybridSearch.module_init env dotenv
     = Raise (mkExc "RuntimeError" "Please set OPENAI_API_KEY in your environment.")).
Proof.
  unfold HybridSearch.module_init, load_dotenv, getenv. split.
  - rewrite <- (exist_proper (λ v, v ≠ "" ∧ (env ∪ dotenv) !! "OPENAI_API_KEY" = Some v)
                (λ v, v ≠ "" ∧ (env !! "OPENAI_API_KEY" = Some v
                  ∨ env !! "OPENAI_API_KEY" = None ∧ dotenv !! "OPENAI_API_KEY" = Some v)))
      by (intros v; by rewrite lookup_union_Some_raw).
    destruct ((env ∪ dotenv) !! "OPENAI_API_KEY") as [v|]; simpl.
    + case_decide as Hv; simpl.
      * split; [intros [m [=]] | intros (v' & Hne & [= <-]); done].
      * split; [intros _; by exists v | by eauto].
    + split; [intros [m [=]] | intros (v' & _ & [=])].
  - intros He. by rewrite (lookup_union_Some_l env dotenv _ "" He).
Qed.

(** * Further properties: the sender *)

Section MoreSenderProperties.

Import SalesEmail.

Variable lib : Library.
Context {SG : Type}.
Variable sg_post : SG → PostRequest → Outcome unit * SG.

(** X4. The sender reports success exactly when the post returned: its
    result is the dict with the one key ["status"] and the value
    ["success"] if and only if the request was built and the email
    service did not raise on it. *)
Theorem send_html_email_success_iff m subject html_body (w : Mailer SG) :
  (send_html_email lib sg_post m subject html_body w).1
  = Return {[ "status" := "success" ]}
  ↔ ∃ s,
      build_request lib m subject html_body
      = Return (mkPost (mkClient (getenv (environ m) "SENDGRID_API_KEY"))
                  (mkMail (mkEmail (sender_email m)) (mkEmail (receiver_email m))
                     subject (mkContent "text/html" html_body)))
      ∧ sg_post (sg_state w)
          (mkPost (mkClient (getenv (environ m) "SENDGRID_API_KEY"))
             (mkMail (mkEmail (sender_email m)) (mkEmail (receiver_email m)) subject
                (mkContent "text/html" html_body))) = (Return (), s).
Proof.
  assert (∀ e : Exc,
    Return ({[ "status" := "error"; "message" := exc_str e ]} : gmap string string)
    ≠ Return {[ "status" := "success" ]}) as Hne.
  { intros e Hd.
    apply (f_equal (λ o : Outcome (gmap string string),
                      match o with Return d => d !! "status" | Raise _ => None end))
      in Hd.
    rewrite lookup_insert_eq, lookup_singleton_eq in Hd. discriminate. }
  rewrite send_html_email_unfold.
  destruct (build_request lib m subject html_body) as [req|e] eqn:Hbuild; simpl.
  - pose proof (build_request_returns lib m subject html_body req Hbuild) as ->.
    destruct (sg_post _ _) as [[[]|e] s]; simpl.
    + split; [by eauto | done].
    + split; [by intros ?%Hne | intros (? & _ & [=])].
  - split; [by intros ?%Hne | intros (? & [=] & _)].
Qed.

(** X5. Two calls of the sender submit, in the order of the calls, one
    request for each call whose request the library built.  So when both
    are built there are two requests whatever the outcome of the first
    post, and the second post sees the state the first one left; a call
    that ended before its post adds nothing and changes nothing. *)
Theorem send_html_email_twice m subject1 body1 subject2 body2 (w : Mailer SG) :
  let built (r : Outcome PostRequest) : list PostRequest :=
    match r with Return req => [req] | Raise _ => [] end in
  let w1 := (send_html_email lib sg_post m subject1 body1 w).2 in
  let w2 := (send_html_email lib sg_post m subject2 body2 w1).2 in
  sg_sent w2
  = (sg_sent w ++ built (build_request lib m subject1 body1)
       ++ built (build_request lib m subject2 body2))%list
  ∧ (∀ req, build_request lib m subject1 body1 = Return req →
       sg_state w1 = (sg_post (sg_state w) req).2)
  ∧ (∀ e, build_request lib m subject1 body1 = Raise e → w1 = w)
  ∧ (∀ req, build_request lib m subject2 body2 = Return req →
       sg_state w2 = (sg_post (sg_state w1) req).2)
  ∧ (∀ e, build_request lib m subject2 body2 = Raise e → w2 = w1).
Proof.
  simpl. rewrite !send_html_email_unfold.
  destruct (build_request lib m subject1 body1) as [req1|e1];
    destruct (build_request lib m subject2 body2) as [req2|e2]; simpl;
    split_and!; try done; try (by intros ? [= <-]);
    by rewrite <- ?app_assoc, ?app_nil_r.
Qed.

End MoreSenderProperties.

(** * Further properties: the local search and its dispatch *)

(** Closes a goal [∃ e, exc_class e = _ ∧ _ = (Raise e, _)] whose right
    side is already a raise. *)
Ltac raises_with_class := eexists; split; [|reflexivity]; reflexivity.

Section MoreSearchProperties.

Import HybridSearch.

Context {Score Coll : Type}.
Variable coll_query : Coll → list Value → Value → Outcome (QueryResult Score) * Coll.

Lemma collect_hits_lookup (start : nat) (rows : list (string * (string * Score))) n h :
  collect_hits start rows !! n = Some h →
  rows !! n = Some (id h, (text h, score h)) ∧ rank h = start + n.
Proof.
  revert start n. induction rows as [|[i [d s]] rows IH]; intros start n; simpl;
    [done|].
  destruct n as [|n]; simpl.
  - intros [= <-]. simpl. split; [done|lia].
  - intros Hn. apply IH in Hn as [-> ->]. split; [done|lia].
Qed.

(** X6. The local search reads only the first row of each of the three
    result lists and pairs them by position up to the shortest: it
    returns as many hits as the shortest of the three rows has entries,
    and hit [n] has rank [n + 1] and the [n]-th identifier, text and
    distance.  Later rows are ignored. *)
Theorem internal_search_tool_reads_first_rows c query top_k res c' i ri d rd s rs :
  coll_query c [query] top_k = (Return res, c') →
  ids res = i :: ri → documents res = d :: rd → distances res = s :: rs →
  ∃ hits,
    internal_search_tool coll_query query top_k c = (Return hits, c')
    ∧ length hits = length i `min` (length d `min` length s)
    ∧ ∀ n h, hits !! n = Some h →
        rank h = S n ∧ i !! n = Some (id h) ∧ d !! n = Some (text h)
        ∧ s !! n = Some (score h).
Proof.
  intros Hq Hi Hd Hs. unfold internal_search_tool. rewrite Hq.
  unfold mbind, Outcome_bind, Py.bind. rewrite Hi, Hd, Hs. simpl.
  eexists. split; [reflexivity|]. split.
  - by rewrite collect_hits_length, !length_zip_with.
  - intros n h Hn. apply collect_hits_lookup in Hn as [Hrow Hrank].
    split; [lia|].
    apply lookup_zip_with_Some in Hrow as (x & y & Heq & Hx & Hy).
    apply lookup_zip_with_Some in Hy as (y1 & y2 & -> & Hy1 & Hy2).
    by injection Heq as <- <- <-.
Qed.

(** X7. The local search has no error handling of its own: an exception
    of the vector store's query leaves it unchanged, with the store in the
    state the failed query left; and a result without a first row in one
    of its three lists raises [IndexError]. *)
Theorem internal_search_tool_failures c query top_k :
  (∀ e c', coll_query c [query] top_k = (Raise e, c') →
     internal_search_tool coll_query query top_k c = (Raise e, c'))
  ∧ (∀ res c', coll_query c [query] top_k = (Return res, c') →
       ids res = [] ∨ documents res = [] ∨ distances res = [] →
       ∃ e, exc_class e = "IndexError"
         ∧ internal_search_tool coll_query query top_k c = (Raise e, c')).
Proof.
  split.
  - intros e c' Hq. unfold internal_search_tool. by rewrite Hq.
  - intros res c' Hq Hempty. unfold internal_search_tool. rewrite Hq.
    unfold mbind, Outcome_bind, Py.bind.
    destruct (ids res) as [|i ri]; simpl; [raises_with_class|].
    destruct (documents res) as [|d rd]; simpl; [raises_with_class|].
    destruct (distances res) as [|s rs]; simpl; [raises_with_class|].
    by destruct Hempty as [|[|]].
Qed.

(** X8. How [dispatch_tool_call] binds the arguments of an
    ["internal_search"] call.  Without a ["query"] (in particular without
    any arguments) or with a keyword other than ["query"] and ["top_k"] it
    raises [TypeError] and the vector store is not queried.  With a
    ["query"] alone it searches with [top_k = 5]; with both it searches
    with the given [top_k]. *)
Theorem dispatch_internal_search_arguments (call : ToolCall) (c : Coll) :
  tc_name call = "internal_search" →
  (default ∅ (tc_arguments call) !! "query" = None →
   ∃ e, exc_class e = "TypeError"
     ∧ dispatch_tool_call coll_query call c = (Raise e, c))
  ∧ (dom (default ∅ (tc_arguments call)) ⊈ ({[ "query"; "top_k" ]} : gset string) →
     ∃ e, exc_class e = "TypeError"
       ∧ dispatch_tool_call coll_query call c = (Raise e, c))
  ∧ (∀ q, tc_arguments call = Some {[ "query" := q ]} →
       dispatch_tool_call coll_query call c
       = internal_search_tool coll_query q (VInt 5) c)
  ∧ (∀ q k, tc_arguments call = Some {[ "query" := q; "top_k" := k ]} →
       dispatch_tool_call coll_query call c
       = internal_search_tool coll_query q k c).
Proof.
  intros Hname. unfold dispatch_tool_call, apply_internal_search_tool.
  rewrite decide_True by done. split_and!.
  - intros Hq. case_decide; [rewrite Hq|]; raises_with_class.
  - intros Hdom. rewrite decide_False by done. raises_with_class.
  - intros q ->. simpl.
    rewrite decide_True by (rewrite dom_singleton_L; set_solver).
    by rewrite lookup_singleton_eq, lookup_singleton_ne.
  - intros q k ->. simpl.
    rewrite decide_True by (rewrite dom_insert_L, dom_singleton_L; set_solver).
    by rewrite lookup_insert_eq, lookup_insert_ne, lookup_singleton_eq.
Qed.

End MoreSearchProperties.

(** * Further properties: the chat loop *)

Section MoreAgentProperties.

Import HybridSearch.

Context {Score Coll Rng CS : Type}.
Variable coll_query : Coll → list Value → Value → Outcome (QueryResult Score) * Coll.
Variable create : CS → Request → Outcome (list ChatCompletionMessage) * CS.
Variable json_dumps : list (Hit Score) → string.

Local Abbreviation World := (World Coll Rng CS).
Local Abbreviation run_tool_calls := (run_tool_calls coll_query json_dumps).
Local Abbreviation chat_iteration := (chat_iteration coll_query create json_dumps).
Local Abbreviation chat_loop := (chat_loop coll_query create json_dumps).
Local Abbreviation chat := (chat coll_query create json_dumps).
Local Abbreviation repl := (repl coll_query create json_dumps).
Local Abbreviation request model h w :=
  (mkRequest model (history_read h w)
     [FunctionTool internal_search_spec; web_search_spec] "auto" "0.3").
Local Abbreviation is_local := (λ call : ToolCall, tc_name call = "internal_search").

(** X9. When the first tool call of a response is a local search that
    raises (bad arguments, or an error of the vector store), [chat]
    raises the same exception in that pass: the response message has been
    appended, no tool record is appended for the call, and the remaining
    calls of the response are not run. *)
Theorem local_tool_error_ends_chat model h (w : World) msg rest cs call calls e c :
  create (w_client w) (request model h w) = (Return (msg :: rest), cs) →
  tool_calls msg = Some (call :: calls) →
  tc_name call = "internal_search" →
  dispatch_tool_call coll_query call (w_coll w) = (Raise e, c) →
  ∀ n, chat_loop (S n) model h w
       = Some (Raise e, set_coll c (history_append h (Obj msg) (set_client cs w))).
Proof.
  intros Hcreate Hcalls Hname Hdispatch n. simpl.
  rewrite (chat_iteration_response coll_query create json_dumps model h w msg rest cs Hcreate).
  rewrite Hcalls. simpl. rewrite decide_True by done. by rewrite Hdispatch.
Qed.

(** X10. When the chat endpoint raises, [chat] raises the same exception
    without another request.  The user record has been appended by then:
    the history holds what it held on entry and the user record of the
    query. *)
Theorem endpoint_error_ends_chat query history model (w : World) e cs :
  (∀ req, create (w_client w) req = (Raise e, cs)) →
  ∀ n, ∃ w',
    chat (S n) query history model w = Some (Raise e, w')
    ∧ w_client w' = cs
    ∧ history_read (history_or_new history (w_heap w)).1 w'
      = (from_option (λ l, history_read l w) [] history ++ [user_message query])%list.
Proof.
  intros Hcreate n.
  pose proof (chat_start query history w) as (_ & Hread & _ & _).
  unfold HybridSearch.chat.
  destruct (history_or_new history (w_heap w)) as [h hp]. simpl in *.
  unfold HybridSearch.chat_iteration. simpl. rewrite Hcreate.
  eexists. split; [reflexivity|]. split; [done|]. exact Hread.
Qed.

Lemma run_tool_calls_results calls h (w w' : World) :
  h < length (w_heap w) →
  run_tool_calls calls h w = (Return (), w') →
  ∃ results,
    length results = length (filter is_local calls)
    ∧ history_read h w'
      = (history_read h w
           ++ zip_with (tool_message json_dumps) (filter is_local calls) results)%list.
Proof.
  revert w. induction calls as [|call rest IH]; intros w Hh; simpl.
  - intros [= <-]. exists []. by rewrite app_nil_r.
  - case_decide as Hname.
    + rewrite filter_cons_True by done.
      destruct (dispatch_tool_call coll_query call (w_coll w)) as [[result|e] c];
        [|discriminate].
      intros Hrun. apply IH in Hrun as (results & Hlen & Hread);
        [|by rewrite heap_append_length].
      exists (result :: results). split; [simpl; by rewrite Hlen|].
      rewrite Hread, history_read_append by done. simpl.
      by rewrite <- app_assoc.
    + rewrite filter_cons_False by done. by apply IH.
Qed.


(** X12. An empty list passed as history is not used: [chat] behaves as
    if called without a history, records the conversation in a new list
    object, and leaves the caller's list empty. *)
Theorem chat_leaves_empty_caller_list fuel query model (w : World) l :
  w_heap w !! l = Some [] →
  chat fuel query (Some l) model w = chat fuel query None model w
  ∧ ∀ o w', chat fuel query (Some l) model w = Some (o, w') →
      w_heap w' !! l = Some [] ∧ length (w_heap w') = S (length (w_heap w)).
Proof.
  intros Hl. split.
  - unfold HybridSearch.chat. simpl. by rewrite Hl.
  - intros o w' Hchat.
    pose proof (chat_start query (Some l) w) as (Hh & _ & Hframe & _).
    unfold HybridSearch.chat in Hchat. simpl in *. rewrite Hl in *. simpl in *.
    assert (l < length (w_heap w)) as Hlt by by eapply lookup_lt_Some.
    apply chat_loop_grows in Hchat as (Hlen & Hother & _); [|done].
    split.
    + rewrite Hother by lia. rewrite Hframe by lia. done.
    + rewrite Hlen, heap_append_length. simpl. rewrite length_app. simpl. lia.
Qed.

(** X13. A non-empty list passed as history is the list [chat] works on:
    no list object is created, and when [chat] ends the caller's list
    holds its former items, the user record and what the loop appended. *)
Theorem chat_extends_caller_list fuel query model (w : World) l x xs o w' :
  w_heap w !! l = Some (x :: xs) →
  chat fuel query (Some l) model w = Some (o, w') →
  length (w_heap w') = length (w_heap w)
  ∧ ∃ appended,
      w_heap w' !! l = Some (x :: xs ++ user_message query :: appended)%list.
Proof.
  intros Hl Hchat.
  pose proof (chat_start query (Some l) w) as (Hh & Hread & _ & _).
  unfold HybridSearch.chat in Hchat. simpl in *. rewrite Hl in *. simpl in *.
  apply chat_loop_grows in Hchat as (Hlen & _ & appended & Happ & _); [|done].
  split; [by rewrite Hlen, heap_append_length|].
  exists appended.
  assert (l < length (w_heap w')) as Hlt by (by rewrite Hlen).
  destruct (lookup_lt_is_Some_2 _ _ Hlt) as [items Hitems].
  assert (history_read l w = x :: xs) as Hold
    by (unfold history_read; by rewrite Hl).
  assert (history_read l w' = items) as Hnew
    by (unfold history_read; by rewrite Hitems).
  rewrite Hnew, Hread, Hold in Happ. rewrite Hitems, Happ.
  by rewrite <- app_assoc.
Qed.

Lemma run_tool_calls_hosted calls h (w : World) :
  Forall (λ call, tc_name call ≠ "internal_search") calls →
  run_tool_calls calls h w = (Return (), w).
Proof.
  induction 1 as [|call calls Hname _ IH]; simpl; [done|].
  by rewrite decide_False.
Qed.

(** X14. The loop has no bound of its own: as long as every response of
    the model either carries tool calls that are all hosted, or is a
    tool-role message without tool calls, [chat] does not end, whatever
    the number of passes. *)
Theorem chat_runs_while_tools_are_requested :
  (∀ cs req, ∃ msg rest cs',
     create cs req = (Return (msg :: rest), cs')
     ∧ ((truthy_list (tool_calls msg) = true
         ∧ Forall (λ call, tc_name call ≠ "internal_search")
             (default [] (tool_calls msg)))
        ∨ (truthy_list (tool_calls msg) = false ∧ role msg = "tool"))) →
  ∀ fuel query history model (w : World), chat fuel query history model w = None.
Proof.
  intros Hcreate.
  assert (∀ fuel model h (w : World), chat_loop fuel model h w = None) as Hloop.
  { induction fuel as [|n IH]; intros model h w; simpl; [done|].
    destruct (Hcreate (w_client w) (request model h w))
      as (msg & rest & cs' & Hresp & Hkind).
    rewrite (chat_iteration_response coll_query create json_dumps model h w msg rest cs' Hresp).
    destruct Hkind as [[-> Hhosted]|[-> Hrole]]; simpl.
    - rewrite run_tool_calls_hosted by done. simpl. apply IH.
    - rewrite decide_True by done. apply IH. }
  intros fuel query history model w. unfold HybridSearch.chat.
  destruct (history_or_new history (w_heap w)). apply Hloop.
Qed.

(** X15. The REPL only adds to what it has printed, at most one answer for
    each input it read; and it ends normally only at an interrupt: when
    the input ends without one, it ends with an exception ([EOFError], or
    what a chat raised). *)
Theorem repl_ends_at_interrupt fuel inputs printed (w : World) o p w' :
  repl fuel inputs printed w = Some (o, p, w') →
  (∃ answers, p = (printed ++ answers)%list ∧ (length answers ≤ length inputs)%nat)
  ∧ (o = Return () → CtrlC ∈ inputs).
Proof.
  revert printed w. induction inputs as [|[s|] rest IH]; intros printed w; simpl.
  - intros [= <- <- <-]. split; [|done]. exists []. by rewrite app_nil_r.
  - case_decide.
    + intros Hrepl. apply IH in Hrepl as [(answers & -> & Hlen) Hret].
      split; [exists answers; split; [done|lia]|].
      intros Ho. apply elem_of_cons. right. by apply Hret.
    + destruct (chat fuel (strip s) None default_model w) as [[[answer|e] w1]|];
        [| |discriminate].
      * intros Hrepl. apply IH in Hrepl as [(answers & -> & Hlen) Hret].
        split.
        -- exists (answer :: answers). split; [by rewrite <- app_assoc|simpl; lia].
        -- intros Ho. apply elem_of_cons. right. by apply Hret.
      * intros [= <- <- <-]. split; [|done].
        exists []. split; [by rewrite app_nil_r|simpl; lia].
  - intros [= <- <- <-]. split; [|intros _; apply elem_of_cons; by left].
    exists []. split; [by rewrite app_nil_r|simpl; lia].
Qed.

End MoreAgentProperties.

(** * Further properties: the REPL and the start of the script *)

Section MoreReplProperties.

Import HybridSearch.

Context {Score Coll Rng CS : Type}.
Variable coll_add :
  Coll → list string → list string → list (gmap string Value) → Outcome unit * Coll.
Variable coll_query : Coll → list Value → Value → Outcome (QueryResult Score) * Coll.
Variable coll_count : Coll → nat.
Variable coll_get : Coll → string → option (string * gmap string Value).
Variable uuid4 : Rng → string * Rng.
Variable create : CS → Request → Outcome (list ChatCompletionMessage) * CS.
Variable json_dumps : list (Hit Score) → string.

Local Abbreviation World := (World Coll Rng CS).
Local Abbreviation repl := (repl coll_query create json_dumps).
Local Abbreviation main :=
  (main coll_add coll_query coll_count uuid4 create json_dumps).

Lemma lstrip_white_space s :
  Forall (λ a, is_space a = true) (String.list_ascii_of_string s) → lstrip s = "".
Proof.
  induction s as [|a s IH]; simpl; [done|].
  intros Hall. apply Forall_cons in Hall as [-> Hall]. by apply IH.
Qed.

(** X16. Lines that strip to the empty string have no effect on a run of
    the REPL: it does what it does on the input without them (no request,
    nothing printed for them).  A line of white space only is such a
    line. *)
Theorem repl_skips_blank_lines fuel inputs printed (w : World) :
  repl fuel inputs printed w
  = repl fuel (filter (λ x, blank_line x = false) inputs) printed w
  ∧ ∀ s, Forall (λ a, is_space a = true) (String.list_ascii_of_string s) →
      blank_line (Line s) = true.
Proof.
  split.
  - revert printed w. induction inputs as [|[s|] rest IH]; intros printed w; [done| |done].
    simpl. case_decide as Hs.
    + rewrite filter_cons_False; [by apply IH|].
      simpl. rewrite bool_decide_eq_true_2 by done. done.
    + rewrite filter_cons_True
        by (simpl; by rewrite bool_decide_eq_false_2).
      simpl. rewrite decide_False by done.
      destruct (chat coll_query create json_dumps fuel (strip s) None default_model w)
        as [[[answer|e] w1]|]; [|done..].
      apply IH.
  - intros s Hall. simpl. apply bool_decide_eq_true_2.
    unfold strip. by rewrite (lstrip_white_space s Hall).
Qed.

(** The contract of the vector store's add, as for the ingestion. *)
Hypothesis add_stores :
  ∀ c docs new_ids metas,
    length new_ids = length docs → length metas = length docs →
    NoDup new_ids → (∀ i, i ∈ new_ids → coll_get c i = None) →
    ∃ c', coll_add c docs new_ids metas = (Return (), c')
      ∧ coll_count c' = coll_count c + length docs
      ∧ ∀ n i d md,
          new_ids !! n = Some i → docs !! n = Some d → metas !! n = Some md →
          coll_get c' i = Some (d, md).


End MoreReplProperties.

(** * The further properties at concrete inputs *)

Section MoreExamples.

Import HybridSearch SalesEmail.

Lemma internal_search_tool_reads_first_rows_witness :
  ∃ hits,
    internal_search_tool Demo.query (VStr "IDARE") (VInt 2) Demo.store0
    = (Return hits, Demo.store0)
    ∧ length hits = 2.
Proof.
  destruct (internal_search_tool_reads_first_rows Demo.query Demo.store0
              (VStr "IDARE") (VInt 2) _ _ _ _ _ _ _ _
              eq_refl eq_refl eq_refl eq_refl) as (hits & Htool & Hlen & _).
  exists hits. split; [exact Htool | exact Hlen].
Defined.

Lemma dispatch_internal_search_arguments_witness :
  ∃ e, exc_class e = "TypeError"
    ∧ dispatch_tool_call Demo.query (mkCall "call_3" "internal_search" None)
        Demo.store0 = (Raise e, Demo.store0).
Proof.
  apply (proj1 (dispatch_internal_search_arguments Demo.query
                  (mkCall "call_3" "internal_search" None) Demo.store0 eq_refl)).
  reflexivity.
Defined.

Lemma local_tool_error_ends_chat_witness :
  chat_loop Faulty.query_down Demo.create Demo.json_dumps 1 default_model 0
    (Demo.session 0 [user_message "When was GPT-4o released?"])
  = Some (Raise (mkExc "InternalError" "collection is unavailable"),
          set_coll Demo.store0
            (history_append 0
               (Obj (mkMsg "assistant" None
                       (Some [mkCall "call_1" "internal_search"
                                (Some {[ "query" := VStr "GPT-4o"; "top_k" := VInt 1 ]});
                              mkCall "call_2" "web_search" None])))
               (set_client 1
                  (Demo.session 0 [user_message "When was GPT-4o released?"])))).
Proof.
  apply (local_tool_error_ends_chat Faulty.query_down Demo.create Demo.json_dumps
           default_model 0
           (Demo.session 0 [user_message "When was GPT-4o released?"])
           _ [] 1 _ _ _ _ eq_refl eq_refl eq_refl eq_refl).
Defined.

Lemma endpoint_error_ends_chat_witness :
  ∃ w',
    chat Demo.query Faulty.create_down Demo.json_dumps 1 "hello" None default_model
      Demo.world0
    = Some (Raise (mkExc "APIConnectionError" "Connection error."), w')
    ∧ history_read 0 w' = [user_message "hello"].
Proof.
  destruct (endpoint_error_ends_chat Demo.query Faulty.create_down Demo.json_dumps
              "hello" None default_model Demo.world0
              (mkExc "APIConnectionError" "Connection error.") 0
              (λ _, eq_refl) 0) as (w' & Hchat & _ & Hread).
  exists w'. split; [exact Hchat | exact Hread].
Defined.


Lemma chat_leaves_empty_caller_list_witness :
  ∃ o w',
    chat Demo.query Demo.create Demo.json_dumps 1 "hello" (Some 0) default_model
      (Demo.session 2 []) = Some (o, w')
    ∧ w_heap w' !! 0 = Some [].
Proof.
  destruct (chat Demo.query Demo.create Demo.json_dumps 1 "hello" (Some 0)
              default_model (Demo.session 2 [])) as [[o w']|] eqn:Hchat;
    [|vm_compute in Hchat; discriminate].
  destruct (proj2 (chat_leaves_empty_caller_list Demo.query Demo.create
                     Demo.json_dumps 1 "hello" default_model (Demo.session 2 []) 0
                     eq_refl) o w' Hchat) as [Hempty _].
  exists o, w'. split; [reflexivity | exact Hempty].
Defined.

Lemma chat_extends_caller_list_witness :
  ∃ o w' appended,
    chat Demo.query Demo.create Demo.json_dumps 1 "hello" (Some 0) default_model
      (Demo.session 2 [user_message "earlier"]) = Some (o, w')
    ∧ w_heap w' !! 0
      = Some (user_message "earlier" :: [] ++ user_message "hello" :: appended)%list
    ∧ length (w_heap w') = 1.
Proof.
  destruct (chat Demo.query Demo.create Demo.json_dumps 1 "hello" (Some 0)
              default_model (Demo.session 2 [user_message "earlier"]))
    as [[o w']|] eqn:Hchat; [|vm_compute in Hchat; discriminate].
  destruct (chat_extends_caller_list Demo.query Demo.create Demo.json_dumps 1
              "hello" default_model (Demo.session 2 [user_message "earlier"]) 0
              (user_message "earlier") [] o w' eq_refl Hchat)
    as (Hlen & appended & Hitems).
  exists o, w', appended. split; [reflexivity|]. split; [exact Hitems | exact Hlen].
Defined.

Lemma chat_runs_while_tools_are_requested_witness :
  chat Demo.query Faulty.create_web Demo.json_dumps 100 "Search the web." None
    default_model Demo.world0 = None.
Proof.
  apply (chat_runs_while_tools_are_requested (Rng := nat) Demo.query
           Faulty.create_web Demo.json_dumps).
  intros cs req. eexists _, _, _. split; [reflexivity|].
  left. split; [reflexivity|]. repeat constructor. discriminate.
Defined.

Lemma repl_ends_at_interrupt_witness :
  ∃ o p w' answers,
    repl Demo.query Demo.create Demo.json_dumps 3
      [Line "  "; Line " When was GPT-4o released? "; CtrlC] [] Demo.world0
    = Some (o, p, w')
    ∧ p = ([] ++ answers)%list ∧ (length answers ≤ 3)%nat.
Proof.
  destruct (repl Demo.query Demo.create Demo.json_dumps 3
              [Line "  "; Line " When was GPT-4o released? "; CtrlC] []
              Demo.world0) as [[[o p] w']|] eqn:Hrepl;
    [|vm_compute in Hrepl; discriminate].
  destruct (repl_ends_at_interrupt Demo.query Demo.create Demo.json_dumps 3 _ _ _
              o p w' Hrepl) as [(answers & Hp & Hlen) _].
  exists o, p, w', answers. split; [reflexivity|]. split; [exact Hp | exact Hlen].
Defined.


End MoreExamples.
